(** * Lead manager front end: the [Home] page component

    A shallow embedding of the page component (the default export [Home] of the
    page module), of the [Modal] it renders and of the form validation
    [schema], followed by the properties of the page that the design document
    states.

    The component is a React function component.  Its semantics is given the
    usual way: the values held by [useState] / [useRef] / [useForm] form a
    record, every handler is a function on that record, and what happens
    between an [await fetch(...)] and the callbacks chained on it is made
    explicit by a list of requests in flight.  A handler is a JavaScript
    closure: the [leads] it mentions is the value of the render in which the
    handler was created, so a request in flight carries that value with it.
    Browser timers ([setInterval] / [clearInterval]) are a list of pending
    timers with their next due time, against a clock in milliseconds. *)

From Stdlib Require Import String Ascii List Bool Arith NArith Lia.
Import ListNotations.

Local Open Scope list_scope.
Local Open Scope string_scope.

(** ** Data model *)

(** [enum ELeadStatus]: the constructors are the members, [ELeadStatus_value]
    gives the string each member stands for. *)
Inductive ELeadStatus : Set :=
| New
| Engaged
| ProposalSent
| ClosedWon
| ClosedLost.

Definition ELeadStatus_value (s : ELeadStatus) : string :=
  match s with
  | New => "New"
  | Engaged => "Engaged"
  | ProposalSent => "Proposal Sent"
  | ClosedWon => "Closed-Won"
  | ClosedLost => "Closed-Lost"
  end.

(** [Object.values(ELeadStatus)], in declaration order. *)
Definition ELeadStatus_values : list string :=
  map ELeadStatus_value [New; Engaged; ProposalSent; ClosedWon; ClosedLost].

(** [TLeadFormInputs].  The type annotation [status: ELeadStatus] is erased at
    run time: what the form holds is the string value of the [<select>], and it
    is the schema that checks membership, so the field is a string here. *)
Record TLeadFormInputs : Set := mkInputs {
  name : string;
  email : string;
  status : string
}.

(** [ILead = TLeadFormInputs & { _id: string }]. *)
Record ILead : Set := mkLead {
  _id : string;
  lead_name : string;
  lead_email : string;
  lead_status : string
}.

(** The JSON object a POST or DELETE answers with.  [res_error] is its [error]
    property ([None] when the property is absent); [res_body] is the object
    seen as a lead, which is what [setLeads([...leads, res])] stores. *)
Record Response : Set := mkResponse {
  res_error : option string;
  res_body : ILead
}.

(** JavaScript truthiness of an optional string, as used by [if (res.error)]
    and by [error && ...] in the JSX: absent, [null] and the empty string are
    falsy. *)
Definition truthy (v : option string) : bool :=
  match v with
  | Some s => negb (s =? "")
  | None => false
  end.

(** What [useForm] reports in [formState.errors]: one optional message per
    field. *)
Record FieldErrors : Set := mkErrors {
  err_name : option string;
  err_email : option string;
  err_status : option string
}.

Definition noErrors : FieldErrors := mkErrors None None None.

Definition hasErrors (e : FieldErrors) : bool :=
  match err_name e, err_email e, err_status e with
  | None, None, None => false
  | _, _, _ => true
  end.

(** The form as first rendered and as [reset()] leaves it: empty text inputs,
    and the [<select>] on its first option. *)
Definition defaultValues : TLeadFormInputs :=
  mkInputs "" "" (ELeadStatus_value New).

(** A request in flight, together with what the callbacks chained on it have
    closed over: the [leads] of the render that created the handler, and the
    handler's argument. *)
Inductive Request : Set :=
| PostLead (leads0 : list ILead) (data : TLeadFormInputs)
| DeleteLead (leads0 : list ILead) (id : string).

(** How a request in flight ends: the promise rejects (network failure, body
    that is not JSON), or [res.json()] yields an object. *)
Inductive Outcome : Set :=
| Rejected
| Replied (res : Response).

(** A pending interval: its id and the time it is next due. *)
Definition Timer : Set := (nat * N)%type.

(** ** Component state *)

Record State : Set := mkState {
  (* useState *)
  leads : list ILead;
  fetching : bool;
  open : bool;
  loading : bool;
  error : option string;
  (* useRef *)
  intervalRef : option nat;
  (* useForm *)
  values : TLeadFormInputs;
  errors : FieldErrors;
  (* browser: clock (ms), pending intervals, next interval id *)
  now : N;
  timers : list Timer;
  nextTimer : nat;
  (* network: the GET of the mount effect, and the POST/DELETE requests *)
  fetchPending : bool;
  pending : list Request
}.

Definition setLeads (v : list ILead) (st : State) : State :=
  mkState v (fetching st) (open st) (loading st) (error st) (intervalRef st)
          (values st) (errors st) (now st) (timers st) (nextTimer st)
          (fetchPending st) (pending st).

Definition setFetching (v : bool) (st : State) : State :=
  mkState (leads st) v (open st) (loading st) (error st) (intervalRef st)
          (values st) (errors st) (now st) (timers st) (nextTimer st)
          (fetchPending st) (pending st).

Definition setOpen (v : bool) (st : State) : State :=
  mkState (leads st) (fetching st) v (loading st) (error st) (intervalRef st)
          (values st) (errors st) (now st) (timers st) (nextTimer st)
          (fetchPending st) (pending st).

Definition setLoading (v : bool) (st : State) : State :=
  mkState (leads st) (fetching st) (open st) v (error st) (intervalRef st)
          (values st) (errors st) (now st) (timers st) (nextTimer st)
          (fetchPending st) (pending st).

Definition setError (v : option string) (st : State) : State :=
  mkState (leads st) (fetching st) (open st) (loading st) v (intervalRef st)
          (values st) (errors st) (now st) (timers st) (nextTimer st)
          (fetchPending st) (pending st).

Definition setIntervalRef (v : option nat) (st : State) : State :=
  mkState (leads st) (fetching st) (open st) (loading st) (error st) v
          (values st) (errors st) (now st) (timers st) (nextTimer st)
          (fetchPending st) (pending st).

Definition setValues (v : TLeadFormInputs) (st : State) : State :=
  mkState (leads st) (fetching st) (open st) (loading st) (error st)
          (intervalRef st) v (errors st) (now st) (timers st) (nextTimer st)
          (fetchPending st) (pending st).

Definition setErrors (v : FieldErrors) (st : State) : State :=
  mkState (leads st) (fetching st) (open st) (loading st) (error st)
          (intervalRef st) (values st) v (now st) (timers st) (nextTimer st)
          (fetchPending st) (pending st).

Definition setNow (v : N) (st : State) : State :=
  mkState (leads st) (fetching st) (open st) (loading st) (error st)
          (intervalRef st) (values st) (errors st) v (timers st) (nextTimer st)
          (fetchPending st) (pending st).

Definition setTimers (v : list Timer) (st : State) : State :=
  mkState (leads st) (fetching st) (open st) (loading st) (error st)
          (intervalRef st) (values st) (errors st) (now st) v (nextTimer st)
          (fetchPending st) (pending st).

Definition setNextTimer (v : nat) (st : State) : State :=
  mkState (leads st) (fetching st) (open st) (loading st) (error st)
          (intervalRef st) (values st) (errors st) (now st) (timers st) v
          (fetchPending st) (pending st).

Definition setFetchPending (v : bool) (st : State) : State :=
  mkState (leads st) (fetching st) (open st) (loading st) (error st)
          (intervalRef st) (values st) (errors st) (now st) (timers st)
          (nextTimer st) v (pending st).

Definition setPending (v : list Request) (st : State) : State :=
  mkState (leads st) (fetching st) (open st) (loading st) (error st)
          (intervalRef st) (values st) (errors st) (now st) (timers st)
          (nextTimer st) (fetchPending st) v.

(** ** Browser timers *)

(** The period of the interval that [removeLead] starts. *)
Definition errorDuration : N := 4000%N.

Definition timerIds (st : State) : list nat := map fst (timers st).

Definition isPending (t : nat) (st : State) : bool :=
  existsb (Nat.eqb t) (timerIds st).

(** [clearInterval(t)]: the interval [t] is dropped; clearing an id that is
    not pending does nothing. *)
Definition clearInterval (t : nat) (st : State) : State :=
  setTimers (filter (fun x => negb (Nat.eqb (fst x) t)) (timers st)) st.

(** [clearInterval(intervalRef.current)], with or without the guard
    [if (intervalRef.current)]: interval ids are positive, so the guard only
    tests that the ref was ever set, and clearing nothing does nothing. *)
Definition clearCurrentInterval (st : State) : State :=
  match intervalRef st with
  | Some t => clearInterval t st
  | None => st
  end.

(** [intervalRef.current = setInterval(callback, 4000)]: a fresh id, first due
    one period from now, stored in the ref. *)
Definition startErrorInterval (st : State) : State :=
  let t := nextTimer st in
  setIntervalRef (Some t)
    (setNextTimer (S t)
       (setTimers (timers st ++ [(t, (now st + errorDuration)%N)])%list st)).

(** The callback given to [setInterval]:
    [setError(null); clearInterval(intervalRef.current)].  The ref is read when
    the callback runs. *)
Definition intervalCallback (st : State) : State :=
  clearCurrentInterval (setError None st).

(** An interval that is still pending after its callback ran is due again one
    period later. *)
Definition reschedule (t : nat) (st : State) : State :=
  setTimers
    (map (fun x => if Nat.eqb (fst x) t then (fst x, (snd x + errorDuration)%N) else x)
         (timers st))
    st.

(** Runs the intervals of [snapshot] that are due and still pending, in the
    order they were created. *)
Fixpoint fire (snapshot : list Timer) (st : State) : State :=
  match snapshot with
  | [] => st
  | (t, due) :: rest =>
      fire rest
        (if (due <=? now st)%N && isPending t st
         then reschedule t (intervalCallback st)
         else st)
  end.

(** One millisecond passes. *)
Definition tick (st : State) : State :=
  let st1 := setNow (now st + 1)%N st in
  fire (timers st1) st1.

(** ** Effects and handlers of [Home] *)

(** [useEffect(() => { if (!open) setError(null) }, [open])], run after a
    render in which [open] differs from the previous render. *)
Definition effectOpen (prevOpen : bool) (st : State) : State :=
  if Bool.eqb prevOpen (open st) then st
  else if open st then st else setError None st.

(** [fetchLeads], up to the [await]. *)
Definition fetchLeads (st : State) : State :=
  setFetchPending true (setFetching true st).

(** [fetchLeads], the [try] branch followed by [finally]. *)
Definition fetchLeads_try (data : list ILead) (st : State) : State :=
  setFetching false (setLeads data st).

(** [fetchLeads], the [catch] branch followed by [finally]. *)
Definition fetchLeads_catch (message : string) (st : State) : State :=
  setFetching false (setError (Some message) st).

(** The first render and its two mount effects. *)
Definition initialRender : State :=
  mkState [] true false false None None defaultValues noErrors
          0%N [] 1%nat false [].

Definition mount : State :=
  (if open initialRender then (fun st => st) else setError None)
    (fetchLeads initialRender).

(** [reset()] of [useForm]. *)
Definition reset (st : State) : State :=
  setErrors noErrors (setValues defaultValues st).

(** [onSubmit(data)], up to the [await]: the POST is sent. *)
Definition onSubmit (data : TLeadFormInputs) (st : State) : State :=
  let st1 := setLoading true st in
  setPending (pending st1 ++ [PostLead (leads st) data])%list st1.

(** [onSubmit], the second [.then] callback; [leads0] is the [leads] the
    handler closed over. *)
Definition onSubmit_then (leads0 : list ILead) (res : Response) (st : State)
  : State :=
  if truthy (res_error res) then
    setLoading false (setError (res_error res) st)
  else
    setError None
      (setLeads (leads0 ++ [res_body res])%list
         (reset (setOpen false st))).

(** [onSubmit], the [.finally] callback. *)
Definition onSubmit_finally (st : State) : State :=
  setLoading false st.

(** [removeLead(id)], up to the [await]. *)
Definition removeLead (id : string) (st : State) : State :=
  let st1 := clearCurrentInterval st in
  if id =? "" then st1
  else setPending (pending st1 ++ [DeleteLead (leads st) id])%list st1.

(** [removeLead], the second [.then] callback. *)
Definition removeLead_then (leads0 : list ILead) (id : string)
           (res : Response) (st : State) : State :=
  if truthy (res_error res) then
    startErrorInterval (setLoading false (setError (res_error res) st))
  else
    setLeads (filter (fun lead => negb (_id lead =? id)) leads0) st.

(** The callbacks chained on a request, run when it ends. *)
Definition settle (r : Request) (o : Outcome) (st : State) : State :=
  match r, o with
  | PostLead leads0 _, Replied res =>
      onSubmit_finally (onSubmit_then leads0 res st)
  | PostLead _ _, Rejected => onSubmit_finally st
  | DeleteLead leads0 id, Replied res => removeLead_then leads0 id res st
  | DeleteLead _ _, Rejected => st
  end.

(** ** What is rendered *)

Inductive TableBody : Set :=
| FetchingRow
| LeadRows (rows : list ILead)
| NoLeadsRow.

Record View : Set := mkView {
  tbody : TableBody;
  errorRow : option string;
  addNewDisabled : bool;
  modalVisible : bool;
  fieldErrors : FieldErrors;
  submitDisabled : bool;
  modalError : option string
}.

Definition render (st : State) : View :=
  mkView
    (if fetching st then FetchingRow
     else match leads st with
          | [] => NoLeadsRow
          | _ :: _ => LeadRows (leads st)
          end)
    (if negb (open st) && truthy (error st) then error st else None)
    (loading st)
    (open st)
    (errors st)
    (loading st)
    (if truthy (error st) then error st else None).

(** The leads that have a row in the table. *)
Definition renderedLeads (v : View) : list ILead :=
  match tbody v with
  | LeadRows rows => rows
  | _ => []
  end.

(** The page-level message the user can see: the one inside the modal while
    it is visible, the one in the table otherwise. *)
Definition visibleError (v : View) : option string :=
  if modalVisible v then modalError v else errorRow v.

(** ** Events *)

(** What can happen to the mounted page: the GET of the mount effect ends, the
    user clicks or types, a POST or DELETE in flight ends, time passes.
    [ClickRemove row] is a click on the delete button of the [row]-th table
    row; [Settle k o] ends the [k]-th request in flight with outcome [o]. *)
Inductive Event : Set :=
| FetchOk (data : list ILead)
| FetchFail (message : string)
| ClickAddNew
| CloseModal
| Edit (data : TLeadFormInputs)
| Submit
| ClickRemove (row : nat)
| Settle (k : nat) (o : Outcome)
| Tick.

Definition dropAt {A : Type} (k : nat) (l : list A) : list A :=
  firstn k l ++ skipn (S k) l.

Definition isDelete (r : Request) : bool :=
  match r with
  | DeleteLead _ _ => true
  | PostLead _ _ => false
  end.

Definition deletesInFlight (st : State) : nat :=
  length (filter isDelete (pending st)).

(** The [leads] a request's callbacks have closed over. *)
Definition heldLeads (r : Request) : list ILead :=
  match r with
  | PostLead leads0 _ => leads0
  | DeleteLead leads0 _ => leads0
  end.

(** Nothing is in flight. *)
Definition idle (st : State) : bool :=
  negb (fetchPending st)
  && match pending st with [] => true | _ :: _ => false end.

Definition isClickRemove (e : Event) : bool :=
  match e with
  | ClickRemove _ => true
  | _ => false
  end.

(** Events through which an operation reports a failure: they are the ones
    that call [setError] with a message. *)
Definition isFailure (e : Event) : bool :=
  match e with
  | FetchFail _ => true
  | Settle _ (Replied res) => truthy (res_error res)
  | _ => false
  end.

(** Milliseconds that pass during a sequence of events. *)
Fixpoint elapsed (es : list Event) : N :=
  match es with
  | [] => 0%N
  | Tick :: rest => (1 + elapsed rest)%N
  | _ :: rest => elapsed rest
  end.

(** A coarse address check, used only to run the page on concrete traces: the
    text has an at-sign.  The page itself is verified for an arbitrary check
    (the variable [isEmail] below). *)
Fixpoint coarseEmail (s : string) : bool :=
  match s with
  | EmptyString => false
  | String c rest => Ascii.eqb c "@"%char || coarseEmail rest
  end.

(** The sequence the design document's invariant describes, following its
    words: the result of the most recent successful fetch, with every later
    successful create appended and every later successful delete removed.
    [specStep st e s] is that sequence after event [e] happened in page state
    [st], which is only consulted to know which request [e] ends. *)
Definition specStep (st : State) (e : Event) (s : list ILead) : list ILead :=
  match e with
  | FetchOk data => if fetchPending st then data else s
  | Settle k (Replied res) =>
      match nth_error (pending st) k with
      | Some (PostLead _ _) =>
          if truthy (res_error res) then s else (s ++ [res_body res])%list
      | Some (DeleteLead _ id) =>
          if truthy (res_error res) then s
          else filter (fun lead => negb (_id lead =? id)) s
      | None => s
      end
  | _ => s
  end.

Definition isPost (r : Request) : bool := negb (isDelete r).

Definition postsInFlight (st : State) : nat :=
  length (filter isPost (pending st)).

Definition isEdit (e : Event) : bool :=
  match e with
  | Edit _ => true
  | _ => false
  end.

(** [e] ends a POST in flight with a response that is handled as a success. *)
Definition createsLead (st : State) (e : Event) : bool :=
  match e with
  | Settle k (Replied res) =>
      match nth_error (pending st) k with
      | Some (PostLead _ _) => negb (truthy (res_error res))
      | _ => false
      end
  | _ => false
  end.

(** [e] ends a DELETE in flight with a response that is handled as a
    refusal. *)
Definition refusesDelete (st : State) (e : Event) : bool :=
  match e with
  | Settle k (Replied res) =>
      match nth_error (pending st) k with
      | Some (DeleteLead _ _) => truthy (res_error res)
      | _ => false
      end
  | _ => false
  end.

(** [intervalRef.current === t]. *)
Definition refIs (t : nat) (st : State) : bool :=
  match intervalRef st with
  | Some r => Nat.eqb r t
  | None => false
  end.

(** ** The [Modal] component

    [Modal] puts an [onClick] on each of its two [div]s: the backdrop calls
    [onClose], the content box calls [e.stopPropagation()].  A click is
    delivered to the handlers on the path from the element clicked up to the
    root, innermost first, until one of them stops the propagation. *)

(** An [onClick] handler on a page state [S]: what it does, and whether it
    calls [stopPropagation]. *)
Record Handler (S : Type) : Type := mkHandler {
  handle : S -> S;
  stops : bool
}.

Arguments mkHandler {S} _ _.
Arguments handle {S} _ _.
Arguments stops {S} _.

(** Bubbling of a click along [path]. *)
Fixpoint dispatch {S : Type} (path : list (Handler S)) (s : S) : S :=
  match path with
  | [] => s
  | h :: rest =>
      if stops h then handle h s else dispatch rest (handle h s)
  end.

(** [onClick={onClose}] of the backdrop. *)
Definition Modal_backdrop {S : Type} (onClose : S -> S) : Handler S :=
  mkHandler onClose false.

(** [onClick={(e) => e.stopPropagation()}] of the content box. *)
Definition Modal_content {S : Type} : Handler S :=
  mkHandler (fun s => s) true.

(** A click on the backdrop itself. *)
Definition Modal_clickBackdrop {S : Type} (onClose : S -> S) (s : S) : S :=
  dispatch [Modal_backdrop onClose] s.

(** A click somewhere in the children; [inner] are the handlers met between
    the element clicked and the content box. *)
Definition Modal_clickInside {S : Type} (onClose : S -> S)
           (inner : list (Handler S)) (s : S) : S :=
  dispatch (inner ++ [Modal_content; Modal_backdrop onClose])%list s.

(** What [Modal] renders: the children, always, and the two class choices
    that depend on [open]. *)
Record ModalView (C : Type) : Type := mkModalView {
  backdropClass : string;
  contentClass : string;
  children : C
}.

Arguments mkModalView {C} _ _ _.
Arguments backdropClass {C} _.
Arguments contentClass {C} _.
Arguments children {C} _.

Definition Modal {C : Type} (isOpen : bool) (content : C) : ModalView C :=
  mkModalView
    (if isOpen then "visible bg-black/20" else "invisible")
    (if isOpen then "scale-100 opacity-100" else "scale-125 opacity-0")
    content.

(** [onClick={() => setOpen(false)}] of the close button in [Home]. *)
Definition closeButton : Handler State := mkHandler (setOpen false) false.

Section Page.

(** The address syntax check behind [Joi.string().email({ tlds: { allow:
    false } })].  It belongs to the validation library, not to this
    repository, and nothing below depends on what it accepts. *)
Variable isEmail : string -> bool.

(** ** Validation schema

    Every field is a [Joi.string()], which refuses the empty string with
    [string.empty] before any rule runs; [valid(...)] is checked before the
    type, so a status outside the enumeration reports [any.only] first.  The
    resolver keeps the first message of each field. *)

Definition schema_name (v : string) : option string :=
  if v =? "" then Some "Name is required"
  else if Nat.ltb 20 (String.length v) then Some "Name cannot exceed 20 characters"
  else None.

Definition schema_email (v : string) : option string :=
  if v =? "" then Some "Email is required"
  else if isEmail v then None
  else Some "Invalid email address".

Definition schema_status (v : string) : option string :=
  if existsb (String.eqb v) ELeadStatus_values then None
  else Some "Invalid status".

(** [joiResolver(schema)] applied to the form values. *)
Definition schema (data : TLeadFormInputs) : FieldErrors :=
  mkErrors (schema_name (name data))
           (schema_email (email data))
           (schema_status (status data)).

(** [handleSubmit(onSubmit)]: the form values are validated; [onSubmit] is
    called only when no field has an error. *)
Definition handleSubmit (st : State) : State :=
  let errs := schema (values st) in
  if hasErrors errs then setErrors errs st
  else onSubmit (values st) (setErrors noErrors st).

(** ** The page as a transition system *)

(** One event.  A control that is disabled or not on screen ignores the
    event: "Add New" and the submit button are [disabled={loading}], the form
    and the close controls are only reachable while the modal is visible, and
    the delete buttons exist only in the rows rendered once fetching is over.
    After the handler, the [open] effect runs if [open] changed. *)
Definition step (st : State) (e : Event) : State :=
  match e with
  | FetchOk data =>
      if fetchPending st
      then fetchLeads_try data (setFetchPending false st)
      else st
  | FetchFail message =>
      if fetchPending st
      then fetchLeads_catch message (setFetchPending false st)
      else st
  | ClickAddNew =>
      if loading st then st
      else effectOpen (open st) (setOpen true st)
  | CloseModal =>
      if open st then effectOpen (open st) (setOpen false st) else st
  | Edit data =>
      if open st then setValues data st else st
  | Submit =>
      if open st && negb (loading st) then handleSubmit st else st
  | ClickRemove row =>
      if fetching st then st
      else match nth_error (leads st) row with
           | Some item => removeLead (_id item) st
           | None => st
           end
  | Settle k o =>
      match nth_error (pending st) k with
      | Some r =>
          effectOpen (open st)
            (settle r o (setPending (dropAt k (pending st)) st))
      | None => st
      end
  | Tick => tick st
  end.

Fixpoint run (st : State) (es : list Event) : State :=
  match es with
  | [] => st
  | e :: rest => run (step st e) rest
  end.

(** The design document's sequence along a run that starts in [st]. *)
Fixpoint specLeads (st : State) (s : list ILead) (es : list Event)
  : list ILead :=
  match es with
  | [] => s
  | e :: rest => specLeads (step st e) (specStep st e s) rest
  end.

(** Whether [setLeads(data)] of [fetchLeads] ran during a run from [st]. *)
Fixpoint fetchReplaced (st : State) (es : list Event) : bool :=
  match es with
  | [] => false
  | e :: rest =>
      (match e with FetchOk _ => fetchPending st | _ => false end)
      || fetchReplaced (step st e) rest
  end.

(** Runs from [st] in which a delete button is only clicked while no delete
    is in flight. *)
Fixpoint removesApart (st : State) (es : list Event) : bool :=
  match es with
  | [] => true
  | e :: rest =>
      (negb (isClickRemove e) || Nat.eqb (deletesInFlight st) 0)
      && removesApart (step st e) rest
  end.

(** Runs from [st] in which the form is only submitted, and a delete button
    only clicked, while nothing is in flight. *)
Fixpoint oneAtATime (st : State) (es : list Event) : bool :=
  match es with
  | [] => true
  | e :: rest =>
      match e with
      | Submit | ClickRemove _ => idle st
      | _ => true
      end
      && oneAtATime (step st e) rest
  end.

(** Runs from [st] in which no delete is refused. *)
Fixpoint noDeleteRefused (st : State) (es : list Event) : bool :=
  match es with
  | [] => true
  | e :: rest =>
      negb (refusesDelete st e) && noDeleteRefused (step st e) rest
  end.

End Page.

(** ** Concrete data used in the examples *)

Definition ada : ILead := mkLead "1" "Ada" "ada@x.com" "New".
Definition bob : ILead := mkLead "2" "Bob" "bob@x.com" "Engaged".
Definition noId : ILead := mkLead "" "Eve" "eve@x.com" "New".

Definition adaInputs : TLeadFormInputs := mkInputs "Ada" "ada@x.com" "New".

(** [{}]: a body without [error] property (the lead fields are absent too). *)
Definition emptyBody : Response := mkResponse None (mkLead "" "" "" "").

(** [{ error: "Email already exists" }]. *)
Definition emailExists : Response :=
  mkResponse (Some "Email already exists") (mkLead "" "" "" "").

(** [{ error: "Lead not found" }]. *)
Definition leadNotFound : Response :=
  mkResponse (Some "Lead not found") (mkLead "" "" "" "").


(** The record the server answers a successful create of [adaInputs] with. *)
Definition created : Response :=
  mkResponse None (mkLead "3" "Ada" "ada@x.com" "New").

(** The page once the list [ada; bob] has been fetched. *)
Definition fetched : State := run coarseEmail mount [FetchOk [ada; bob]].

(** The modal is open and the form is filled in. *)
Definition filledIn : State :=
  run coarseEmail fetched [ClickAddNew; Edit adaInputs].

(** The form is submitted: a POST is in flight. *)
Definition submitted : State := step coarseEmail filledIn Submit.

(** A delete button is clicked: a DELETE is in flight. *)
Definition deleting : State := step coarseEmail fetched (ClickRemove 0).

(** The server once listed a lead without id, and the delete of [ada] was
    refused. *)
Definition refusedWithNoId : State :=
  run coarseEmail mount
    [FetchOk [ada; noId]; ClickRemove 0; Settle 0 (Replied leadNotFound)].

(** A delete of [ada] was refused: its message is on screen and the interval
    that will clear it is pending. *)
Definition deleteRefused : State :=
  run coarseEmail fetched [ClickRemove 0; Settle 0 (Replied leadNotFound)].

(** The create was refused: its message is on screen, inside the modal. *)
Definition createRefused : State :=
  step coarseEmail submitted (Settle 0 (Replied emailExists)).

(** The modal is open and the form has an address but no name. *)
Definition nameMissing : State :=
  run coarseEmail fetched [ClickAddNew; Edit (mkInputs "" "ada@x.com" "New")].

(** After a refused delete: 1 ms later [bob] is deleted, with success, and
    the rest of the 4 seconds pass. *)
Definition laterDeleteSucceeds : list Event :=
  ([Tick; ClickRemove 1; Settle 0 (Replied emptyBody)] ++ repeat Tick 3999)%list.

(** After a refused delete: a create is refused, and all but the last
    millisecond of the 4 seconds pass. *)
Definition createRefusedMeanwhile : list Event :=
  ([ClickAddNew; Edit adaInputs; Submit; Settle 0 (Replied emailExists)]
     ++ repeat Tick 3999)%list.

(** Two deletes are started one after the other, before either is answered. *)
Definition twoDeletes : list Event :=
  [FetchOk [ada; bob]; ClickRemove 0; ClickRemove 1].

(** The list is fetched, the form is filled in and submitted. *)
Definition submitRun : list Event :=
  [FetchOk [ada; bob]; ClickAddNew; Edit adaInputs; Submit].

(** The form is filled in and submitted before the list has arrived. *)
Definition submitWhileFetching : list Event :=
  [ClickAddNew; Edit adaInputs; Submit].

(** The modal is open and the form has a name of 21 characters. *)
Definition nameTooLong : State :=
  run coarseEmail fetched
      [ClickAddNew; Edit (mkInputs "Augusta Ada Lovelace!" "ada@x.com" "New")].

(** A delete is refused, and all but the last millisecond of the 4 seconds
    pass. *)
Definition untilDue : list Event :=
  ([FetchOk [ada; bob]; ClickRemove 0; Settle 0 (Replied leadNotFound)]
     ++ repeat Tick 3999)%list.

(** Of two deletes in flight, the first has been refused. *)
Definition firstRefused : list Event :=
  (twoDeletes ++ [Settle 0 (Replied leadNotFound)])%list.

(** Both have been refused: two intervals are pending, the ref holds the
    second. *)
Definition bothRefused : State :=
  run coarseEmail mount
      (firstRefused ++ [Settle 0 (Replied leadNotFound)])%list.

(** Both were refused and 4 seconds have passed: the first interval has
    fired, has cancelled the second (the one the ref holds) instead of
    itself, and is due again 4 seconds later. *)
Definition orphaned : State := run coarseEmail bothRefused (repeat Tick 4000).

(** Then a third delete is started and, 1 second later, refused: its
    interval is the one the ref holds, due at 9000 ms. *)
Definition thirdRefused : State :=
  run coarseEmail orphaned
      ([ClickRemove 0] ++ repeat Tick 1000
         ++ [Settle 0 (Replied leadNotFound)])%list.

(** After that a create is sent and time passes until 8000 ms; no delete
    button is clicked. *)
Definition untilOrphanFires : list Event :=
  ([ClickAddNew; Edit adaInputs; Submit] ++ repeat Tick 3000)%list.

(** Then the create is refused, and time passes until 9000 ms. *)
Definition createRefusedLate : list Event :=
  (untilOrphanFires ++ [Settle 0 (Replied emailExists)]
     ++ repeat Tick 1000)%list.

(** A delete and a create are in flight together. *)
Definition deleteAndCreate : State :=
  run coarseEmail fetched [ClickRemove 0; ClickAddNew; Edit adaInputs; Submit].

(** What time leaves alone: the firing of intervals only writes [error] and
    the list of pending intervals. *)
Definition sameButErrorTimers (a b : State) : Prop :=
  leads a = leads b /\ fetching a = fetching b /\ open a = open b /\
  loading a = loading b /\ intervalRef a = intervalRef b /\
  values a = values b /\ errors a = errors b /\ now a = now b /\
  nextTimer a = nextTimer b /\ fetchPending a = fetchPending b /\
  pending a = pending b.

(** The interval in the ref is pending and due [n] ms from now, unless the
    message is already gone. *)
Definition clearsWithin (n : N) (st : State) : Prop :=
  error st = None \/
  ((1 <= n)%N /\
   exists t, intervalRef st = Some t /\ In (t, (now st + n)%N) (timers st)).

(** The interval [t] is due [n] ms from now and none is due earlier. *)
Definition firstDueIn (t : nat) (n : N) (st : State) : Prop :=
  (1 <= n <= errorDuration)%N /\
  In (t, (now st + n)%N) (timers st) /\
  (forall x, In x (timers st) -> (now st + n <= snd x)%N).

(** At most one delete is in flight; while it is, no interval is pending;
    otherwise the only interval that can be pending is the one in the ref. *)
Definition oneInterval (st : State) : Prop :=
  (deletesInFlight st <= 1)%nat /\
  (deletesInFlight st = 1%nat -> timers st = []) /\
  (length (timers st) <= 1)%nat /\
  (forall x, In x (timers st) -> intervalRef st = Some (fst x)).

(** The lead sequence is [s]; at most one request is in flight, and it holds
    the current sequence. *)
Definition inStep (st : State) (s : list ILead) : Prop :=
  leads st = s /\
  (fetchPending st = true -> pending st = []) /\
  (length (pending st) <= 1)%nat /\
  (forall r, In r (pending st) -> heldLeads r = leads st).

(** Firing intervals never adds one: the list does not grow, and what is
    left was there before. *)
Definition noNewTimer (a b : State) : Prop :=
  (length (timers b) <= length (timers a))%nat /\
  (forall x, In x (timers b) -> In (fst x) (timerIds a)).

(** Every POST in flight carries a name that is not empty. *)
Definition postsNamed (st : State) : Prop :=
  Forall (fun r => match r with
                   | PostLead _ data => name data <> ""
                   | DeleteLead _ _ => True
                   end) (pending st).

(** Every POST in flight carries data that the schema accepts. *)
Definition postsValid (isEmail : string -> bool) (st : State) : Prop :=
  Forall (fun r => match r with
                   | PostLead _ data => hasErrors (schema isEmail data) = false
                   | DeleteLead _ _ => True
                   end) (pending st).

(** While the GET of the mount effect is in flight the loading row is
    displayed, and nothing has been deleted or scheduled yet. *)
Definition beforeFetch (st : State) : Prop :=
  fetching st = fetchPending st /\
  (fetchPending st = true ->
   deletesInFlight st = 0%nat /\ timers st = [] /\ intervalRef st = None).

(** At most one POST is in flight, and the submit button is disabled while
    it is. *)
Definition onePost (st : State) : Prop :=
  (postsInFlight st <= 1)%nat /\
  (postsInFlight st = 1%nat -> loading st = true).

(** Interval ids are handed out in increasing order. *)
Definition timersFresh (st : State) : Prop :=
  forall t, In t (timerIds st) -> (t < nextTimer st)%nat.

(** The interval [t] is pending but is not the one the ref holds. *)
Definition orphan (t : nat) (st : State) : Prop :=
  isPending t st = true /\ refIs t st = false /\ (t < nextTimer st)%nat.

(** * Properties *)

(** ** Requests in flight as a list *)

Lemma Forall_dropAt {A : Type} (P : A -> Prop) (k : nat) (l : list A) :
  Forall P l -> Forall P (dropAt k l).
Proof.
  intros H. unfold dropAt. apply Forall_app. split.
  - revert l H. induction k as [|k IH]; intros l H; simpl; [constructor|].
    destruct H; constructor; auto.
  - revert l H. induction k as [|k IH]; intros l H.
    + destruct H; simpl; auto.
    + destruct H; [constructor|]. apply (IH l H0).
Qed.

Lemma filter_dropAt {A : Type} (p : A -> bool) (l : list A) :
  forall (k : nat) (r : A),
    nth_error l k = Some r ->
    length (filter p l)
    = (length (filter p (dropAt k l)) + if p r then 1 else 0)%nat.
Proof.
  induction l as [|a l IH]; intros k r H.
  - destruct k; discriminate.
  - destruct k as [|k].
    + inversion H; subst. unfold dropAt; simpl.
      destruct (p r); simpl; lia.
    + simpl in H. specialize (IH k r H).
      change (dropAt (S k) (a :: l)) with (a :: dropAt k l).
      simpl. destruct (p a); simpl; lia.
Qed.

Lemma length_dropAt {A : Type} (l : list A) :
  forall (k : nat) (r : A),
    nth_error l k = Some r -> length l = S (length (dropAt k l)).
Proof.
  induction l as [|a l IH]; intros k r H.
  - destruct k; discriminate.
  - destruct k as [|k].
    + reflexivity.
    + simpl in H. change (dropAt (S k) (a :: l)) with (a :: dropAt k l).
      simpl. f_equal. now apply (IH k r).
Qed.

(** ** Timers *)

Lemma sameButErrorTimers_refl (st : State) : sameButErrorTimers st st.
Proof. unfold sameButErrorTimers; repeat split. Qed.

Lemma sameButErrorTimers_trans (a b c : State) :
  sameButErrorTimers a b -> sameButErrorTimers b c -> sameButErrorTimers a c.
Proof.
  unfold sameButErrorTimers; intros Hab Hbc.
  repeat match goal with H : _ /\ _ |- _ => destruct H end.
  repeat split; etransitivity; eassumption.
Qed.

Lemma intervalCallback_frame (st : State) :
  sameButErrorTimers st (intervalCallback st).
Proof.
  destruct st as [l f o ld e [t|] v es n ts nt fp p];
    unfold intervalCallback, clearCurrentInterval, sameButErrorTimers;
    simpl; repeat split.
Qed.

Lemma reschedule_frame (t : nat) (st : State) :
  sameButErrorTimers st (reschedule t st).
Proof. unfold sameButErrorTimers, reschedule; simpl; repeat split. Qed.

Lemma fire_frame (snapshot : list Timer) :
  forall st, sameButErrorTimers st (fire snapshot st).
Proof.
  induction snapshot as [|[t due] rest IH]; intros st; simpl.
  - apply sameButErrorTimers_refl.
  - destruct ((due <=? now st)%N && isPending t st).
    + eapply sameButErrorTimers_trans; [|apply IH].
      eapply sameButErrorTimers_trans;
        [apply intervalCallback_frame | apply reschedule_frame].
    + apply IH.
Qed.

Lemma tick_frame (st : State) :
  leads (tick st) = leads st /\ fetching (tick st) = fetching st /\
  open (tick st) = open st /\ loading (tick st) = loading st /\
  intervalRef (tick st) = intervalRef st /\ values (tick st) = values st /\
  errors (tick st) = errors st /\ now (tick st) = (now st + 1)%N /\
  nextTimer (tick st) = nextTimer st /\
  fetchPending (tick st) = fetchPending st /\ pending (tick st) = pending st.
Proof.
  unfold tick.
  pose proof (fire_frame (timers (setNow (now st + 1) st))
                         (setNow (now st + 1) st)) as H.
  unfold sameButErrorTimers in H; simpl in H.
  repeat match goal with H : _ /\ _ |- _ => destruct H end.
  repeat split; symmetry; assumption.
Qed.

(** The callback of the interval clears the message whatever it is. *)
Lemma intervalCallback_error (st : State) : error (intervalCallback st) = None.
Proof.
  destruct st as [l f o ld e [t|] v es n ts nt fp p]; reflexivity.
Qed.

(** Firing either clears the message or does nothing at all. *)
Lemma fire_error_or_same (snapshot : list Timer) :
  forall st, error (fire snapshot st) = None \/ fire snapshot st = st.
Proof.
  induction snapshot as [|[t due] rest IH]; intros st; simpl.
  - now right.
  - destruct ((due <=? now st)%N && isPending t st).
    + left.
      destruct (IH (reschedule t (intervalCallback st))) as [H|H]; [exact H|].
      rewrite H. unfold reschedule; simpl. apply intervalCallback_error.
    + apply IH.
Qed.

Lemma In_isPending (t : nat) (due : N) (st : State) :
  In (t, due) (timers st) -> isPending t st = true.
Proof.
  intros H. unfold isPending, timerIds. apply existsb_exists.
  exists t; split; [|apply Nat.eqb_refl].
  change t with (fst (t, due)). now apply in_map.
Qed.

(** An interval that is pending and due fires: the message is cleared. *)
Lemma fire_due_clears (snapshot : list Timer) :
  forall st t due,
    In (t, due) snapshot -> (due <= now st)%N -> isPending t st = true ->
    error (fire snapshot st) = None.
Proof.
  induction snapshot as [|[t0 due0] rest IH]; intros st t due Hin Hdue Hp;
    simpl in *; [contradiction|].
  destruct ((due0 <=? now st)%N && isPending t0 st) eqn:Hfire.
  - destruct (fire_error_or_same rest (reschedule t0 (intervalCallback st)))
      as [H|H]; [exact H|].
    rewrite H. unfold reschedule; simpl. apply intervalCallback_error.
  - destruct Hin as [Heq|Hin].
    + inversion Heq; subst. rewrite Hp, andb_true_r in Hfire.
      apply N.leb_gt in Hfire. lia.
    + eapply IH; eassumption.
Qed.

(** Nothing fires while no interval is due. *)
Lemma fire_none_due (snapshot : list Timer) :
  forall st, (forall x, In x snapshot -> (now st < snd x)%N) ->
             fire snapshot st = st.
Proof.
  induction snapshot as [|[t due] rest IH]; intros st H; simpl; [reflexivity|].
  assert (Hd : (due <=? now st)%N = false).
  { apply N.leb_gt. apply (H (t, due)). now left. }
  rewrite Hd; simpl. apply IH. intros x Hx. apply H. now right.
Qed.

(** Firing never adds an interval. *)
Lemma noNewTimer_refl (st : State) : noNewTimer st st.
Proof.
  split; [apply Nat.le_refl|]. intros x Hx. unfold timerIds. now apply in_map.
Qed.

Lemma noNewTimer_trans (a b c : State) :
  noNewTimer a b -> noNewTimer b c -> noNewTimer a c.
Proof.
  intros (Hl1 & Hi1) (Hl2 & Hi2). split; [lia|].
  intros x Hx. specialize (Hi2 x Hx). unfold timerIds in Hi2.
  apply in_map_iff in Hi2. destruct Hi2 as (y & Hy & Hin).
  rewrite <- Hy. now apply Hi1.
Qed.

Lemma clearInterval_noNewTimer (t : nat) (st : State) :
  noNewTimer st (clearInterval t st).
Proof.
  unfold noNewTimer, clearInterval; simpl. split.
  - apply filter_length_le.
  - intros x Hx. apply filter_In in Hx. destruct Hx as [Hx _].
    unfold timerIds. now apply in_map.
Qed.

Lemma intervalCallback_noNewTimer (st : State) :
  noNewTimer st (intervalCallback st).
Proof.
  unfold intervalCallback, clearCurrentInterval; simpl.
  destruct (intervalRef st) as [t|].
  - apply (clearInterval_noNewTimer t (setError None st)).
  - apply (noNewTimer_refl (setError None st)).
Qed.

Lemma reschedule_noNewTimer (t : nat) (st : State) :
  noNewTimer st (reschedule t st).
Proof.
  unfold noNewTimer, reschedule; simpl. split.
  - rewrite length_map. apply Nat.le_refl.
  - intros x Hx. apply in_map_iff in Hx. destruct Hx as (y & Hy & Hin).
    unfold timerIds. apply in_map_iff. exists y. split; [|exact Hin].
    subst x. destruct (Nat.eqb (fst y) t); reflexivity.
Qed.

Lemma fire_noNewTimer (snapshot : list Timer) :
  forall st, noNewTimer st (fire snapshot st).
Proof.
  induction snapshot as [|[t due] rest IH]; intros st; simpl.
  - apply noNewTimer_refl.
  - destruct ((due <=? now st)%N && isPending t st); [|apply IH].
    eapply noNewTimer_trans; [|apply IH].
    eapply noNewTimer_trans;
      [apply intervalCallback_noNewTimer|apply reschedule_noNewTimer].
Qed.

Lemma tick_noNewTimer (st : State) : noNewTimer st (tick st).
Proof.
  unfold tick.
  apply (fire_noNewTimer (timers (setNow (now st + 1)%N st))
                         (setNow (now st + 1)%N st)).
Qed.

(** ** Rendering *)

(** The rows of the table are the lead sequence, once fetching is over. *)
Lemma renderedLeads_render (st : State) :
  renderedLeads (render st) = if fetching st then [] else leads st.
Proof.
  unfold renderedLeads, render; simpl.
  destruct (fetching st); [reflexivity|].
  destruct (leads st); reflexivity.
Qed.

(** The message on screen is the page error, when it is not empty. *)
Lemma visibleError_render (st : State) :
  truthy (error st) = true -> visibleError (render st) = error st.
Proof.
  intros H. unfold visibleError, render; simpl. rewrite H.
  destruct (open st); reflexivity.
Qed.

Lemma visibleError_none (st : State) :
  error st = None -> visibleError (render st) = None.
Proof.
  intros H. unfold visibleError, render; simpl. rewrite H; simpl.
  rewrite andb_false_r. now destruct (open st).
Qed.

(** ** One event at a time *)

Ltac unfold_handlers :=
  unfold step, handleSubmit, onSubmit, removeLead, settle, onSubmit_finally,
    onSubmit_then, removeLead_then, startErrorInterval, fetchLeads_try,
    fetchLeads_catch, effectOpen, reset, clearCurrentInterval, clearInterval.

Ltac split_cases :=
  repeat match goal with
         | |- context [if ?b then _ else _] => destruct b eqn:?; simpl
         | |- context [match ?x with _ => _ end] => destruct x eqn:?; simpl
         end.

Section Properties.

Variable isEmail : string -> bool.

(** Apart from a click on a delete button and the passing of time, no event
    touches the clock, and the only thing that can happen to the pending
    intervals is that a refused delete adds one, due a full period later. *)
Lemma step_timers (st : State) (e : Event) :
  isClickRemove e = false -> e <> Tick ->
  now (step isEmail st e) = now st /\
  (timers (step isEmail st e) = timers st \/
   timers (step isEmail st e)
   = (timers st ++ [(nextTimer st, (now st + errorDuration)%N)])%list).
Proof.
  intros Hr Ht.
  destruct e; try discriminate; try congruence;
    destruct st as [? ? ? ? ? ? ? ? ? ? ? ? ?];
    unfold_handlers; simpl; split_cases; auto.
Qed.

(** An event that is neither a click on a delete button, nor a reported
    failure, nor the passing of time leaves the ref, the pending intervals
    and the clock alone, and either keeps the message or clears it. *)
Lemma step_calm (st : State) (e : Event) :
  isClickRemove e = false -> isFailure e = false -> e <> Tick ->
  intervalRef (step isEmail st e) = intervalRef st /\
  timers (step isEmail st e) = timers st /\
  now (step isEmail st e) = now st /\
  (error (step isEmail st e) = error st \/ error (step isEmail st e) = None).
Proof.
  intros Hr Hf Ht.
  destruct e; try discriminate; try congruence;
    destruct st as [? ? ? ? ? ? ? ? ? ? ? ? ?];
    unfold_handlers; simpl in *; split_cases; auto; try congruence.
Qed.

Lemma effectOpen_frame (b : bool) (st : State) :
  pending (effectOpen b st) = pending st /\
  timers (effectOpen b st) = timers st /\
  intervalRef (effectOpen b st) = intervalRef st /\
  leads (effectOpen b st) = leads st /\
  fetchPending (effectOpen b st) = fetchPending st.
Proof.
  unfold effectOpen. destruct (Bool.eqb b (open st)); [repeat split|].
  destruct (open st); repeat split.
Qed.

Lemma clearCurrentInterval_frame (st : State) :
  pending (clearCurrentInterval st) = pending st /\
  intervalRef (clearCurrentInterval st) = intervalRef st /\
  leads (clearCurrentInterval st) = leads st /\
  fetchPending (clearCurrentInterval st) = fetchPending st.
Proof.
  unfold clearCurrentInterval.
  destruct (intervalRef st) eqn:E; repeat split; simpl; auto.
Qed.

(** ** Create *)

(** What a create whose response carries no [error] property does, in terms
    of the sequence its handler holds: whatever
    happened while the request was in flight, once it is answered the modal is
    closed, the form is back to its initial values with no field error, the
    page error is cleared, and the lead sequence is the sequence of the moment
    the request was made (the one the handler holds) with the response record
    appended at the end, hence one entry longer; when nothing changed the
    sequence while the request was in flight, that is the sequence displayed
    just before the answer. *)
Theorem create_success_appends :
  forall (st mid : State) (data : TLeadFormInputs) (k : nat) (res : Response),
    res_error res = None ->
    nth_error (pending mid) k = Some (PostLead (leads st) data) ->
    pending (onSubmit data st)
    = (pending st ++ [PostLead (leads st) data])%list /\
    open (step isEmail mid (Settle k (Replied res))) = false /\
    values (step isEmail mid (Settle k (Replied res))) = defaultValues /\
    errors (step isEmail mid (Settle k (Replied res))) = noErrors /\
    error (step isEmail mid (Settle k (Replied res))) = None /\
    leads (step isEmail mid (Settle k (Replied res)))
    = (leads st ++ [res_body res])%list /\
    length (leads (step isEmail mid (Settle k (Replied res))))
    = S (length (leads st)) /\
    renderedLeads (render (step isEmail mid (Settle k (Replied res))))
    = (if fetching mid then [] else leads st ++ [res_body res])%list /\
    (leads mid = leads st ->
     leads (step isEmail mid (Settle k (Replied res)))
     = (leads mid ++ [res_body res])%list).
Proof.
  intros st mid data k res Herr Hk.
  split; [reflexivity|].
  unfold step. rewrite Hk.
  unfold settle, onSubmit_finally, onSubmit_then. rewrite Herr.
  destruct mid as [? ? [|] ? ? ? ? ? ? ? ? ? ?]; simpl;
    (repeat split; try reflexivity;
     try (rewrite length_app; simpl; lia);
     try (rewrite renderedLeads_render; reflexivity);
     try (intros Hsame; simpl in Hsame; now rewrite Hsame)).
Qed.


(** ** Remove *)

(** What a remove with a non-empty id whose response carries no [error]
    property does, in terms of the sequence its handler holds: whatever
    happened while the request was in flight, once it is
    answered the lead sequence is the sequence of the moment remove was called
    with every record of that id filtered out, the others kept in order; the
    id is neither in the sequence nor in the rendered rows.  When nothing
    changed the sequence while the request was in flight, that is the
    sequence displayed just before the answer, filtered. *)
Theorem remove_success_filters :
  forall (st mid : State) (id : string) (k : nat) (res : Response),
    (id =? "") = false ->
    res_error res = None ->
    nth_error (pending mid) k = Some (DeleteLead (leads st) id) ->
    pending (removeLead id st)
    = (pending st ++ [DeleteLead (leads st) id])%list /\
    leads (step isEmail mid (Settle k (Replied res)))
    = filter (fun lead => negb (_id lead =? id)) (leads st) /\
    ~ In id (map _id (leads (step isEmail mid (Settle k (Replied res))))) /\
    ~ In id (map _id (renderedLeads
                        (render (step isEmail mid (Settle k (Replied res)))))) /\
    (forall lead, In lead (leads st) -> (_id lead =? id) = false ->
                  In lead (leads (step isEmail mid (Settle k (Replied res))))) /\
    (leads mid = leads st ->
     leads (step isEmail mid (Settle k (Replied res)))
     = filter (fun lead => negb (_id lead =? id)) (leads mid)).
Proof.
  intros st mid id k res Hid Herr Hk.
  assert (Hnot : forall l, ~ In id (map _id
                     (filter (fun lead => negb (_id lead =? id)) l))).
  { intros l Hin. apply in_map_iff in Hin. destruct Hin as (x & Hx & Hf).
    apply filter_In in Hf. destruct Hf as [_ Hf]. subst id.
    rewrite String.eqb_refl in Hf. discriminate. }
  split.
  { unfold removeLead. rewrite Hid.
    destruct st as [? ? ? ? ? [?|] ? ? ? ? ? ? ?]; reflexivity. }
  assert (Hl : leads (step isEmail mid (Settle k (Replied res)))
               = filter (fun lead => negb (_id lead =? id)) (leads st)).
  { unfold step. rewrite Hk. unfold settle, removeLead_then. rewrite Herr.
    destruct mid as [? ? [|] ? ? ? ? ? ? ? ? ? ?]; reflexivity. }
  split; [exact Hl|].
  split; [rewrite Hl; apply Hnot|].
  split.
  - rewrite renderedLeads_render.
    destruct (fetching _); [intros []|].
    rewrite Hl. apply Hnot.
  - split.
    + intros lead Hin Hne. rewrite Hl. apply filter_In.
      split; [exact Hin|]. now rewrite Hne.
    + intros Hsame. now rewrite Hsame.
Qed.

(** C5, as the code has it.  A remove with an empty id sends no request and
    leaves the lead sequence and the page error as they are; as every call
    of remove does, it first cancels the interval held in the ref, and that
    is all it does. *)
Theorem remove_empty_id :
  forall st : State,
    removeLead "" st = clearCurrentInterval st /\
    pending (removeLead "" st) = pending st /\
    leads (removeLead "" st) = leads st /\
    error (removeLead "" st) = error st /\
    intervalRef (removeLead "" st) = intervalRef st /\
    timers (removeLead "" st)
    = match intervalRef st with
      | Some t => filter (fun x => negb (Nat.eqb (fst x) t)) (timers st)
      | None => timers st
      end.
Proof.
  intros st. unfold removeLead. simpl.
  destruct st as [? ? ? ? ? [?|] ? ? ? ? ? ? ?]; repeat split; reflexivity.
Qed.

(** ** The [open] effect *)

(** C6, as the code has it.  Whenever an event changes the open flag: if the
    modal is now closed the page error is cleared; if it is now open the page
    error is what it was. *)
Theorem open_change_clears_on_close :
  forall (st : State) (e : Event),
    Bool.eqb (open (step isEmail st e)) (open st) = false ->
    (open (step isEmail st e) = false -> error (step isEmail st e) = None) /\
    (open (step isEmail st e) = true ->
     error (step isEmail st e) = error st).
Proof.
  intros st e Hch.
  destruct e;
    try (destruct st as [? ? [|] ? ? ? ? ? ? ? ? ? ?];
         revert Hch; unfold_handlers; simpl; split_cases;
         intros; split; intros; simpl in *; congruence).
  destruct (tick_frame st) as (_ & _ & Ho & _).
  change (step isEmail st Tick) with (tick st) in Hch.
  rewrite Ho, Bool.eqb_reflx in Hch. discriminate.
Qed.

(** ** The lead sequence along a run *)

Lemma inStep_same (st st' : State) (s : list ILead) :
  leads st' = leads st -> pending st' = pending st ->
  fetchPending st' = fetchPending st ->
  inStep st s -> inStep st' s.
Proof.
  unfold inStep. intros Hl Hp Hf H. rewrite Hl, Hp, Hf. exact H.
Qed.

Lemma idle_true (st : State) :
  idle st = true -> fetchPending st = false /\ pending st = [].
Proof.
  unfold idle. intros H. apply andb_true_iff in H. destruct H as [Hf Hp].
  split.
  - now destruct (fetchPending st).
  - now destruct (pending st).
Qed.

Lemma inStep_issue (st st' : State) (s : list ILead) (r : Request) :
  idle st = true -> heldLeads r = leads st ->
  leads st' = leads st -> pending st' = (pending st ++ [r])%list ->
  fetchPending st' = fetchPending st ->
  inStep st s -> inStep st' s.
Proof.
  intros Hidle Hheld Hl Hp Hf (Hs & _).
  destruct (idle_true st Hidle) as (Hfp & Hpe).
  unfold inStep. rewrite Hl, Hp, Hf, Hpe, Hfp. simpl.
  repeat split; auto; try discriminate.
  intros r0 [Hr|[]]. now subst r0.
Qed.

Lemma step_inStep (st : State) (e : Event) (s : list ILead) :
  match e with
  | Submit | ClickRemove _ => idle st = true
  | _ => True
  end ->
  inStep st s -> inStep (step isEmail st e) (specStep st e s).
Proof.
  intros Hidle H.
  destruct e; simpl.
  - destruct (fetchPending st) eqn:Hf; [|exact H].
    destruct H as (_ & Hnone & _).
    unfold inStep; simpl. rewrite (Hnone Hf). simpl.
    repeat split; auto; try discriminate. intros r [].
  - destruct (fetchPending st) eqn:Hf; [|exact H].
    destruct H as (Hs & Hnone & _).
    unfold inStep; simpl. rewrite (Hnone Hf). simpl.
    repeat split; auto; try discriminate. intros r [].
  - destruct (loading st); [exact H|].
    destruct (effectOpen_frame (open st) (setOpen true st))
      as (Hp & _ & _ & Hl & Hf).
    apply (inStep_same st); auto.
  - destruct (open st) eqn:Ho; [|exact H].
    destruct (effectOpen_frame true (setOpen false st))
      as (Hp & _ & _ & Hl & Hf).
    apply (inStep_same st); auto.
  - destruct (open st); [|exact H]. apply (inStep_same st); auto.
  - destruct (open st && negb (loading st)); [|exact H].
    unfold handleSubmit. destruct (hasErrors _).
    + apply (inStep_same st); auto.
    + apply (inStep_issue st _ s (PostLead (leads st) (values st))); auto.
  - destruct (fetching st); [exact H|].
    destruct (nth_error (leads st) row) as [item|]; [|exact H].
    destruct (clearCurrentInterval_frame st) as (Hp & _ & Hl & Hf).
    unfold removeLead. destruct (_id item =? "").
    + apply (inStep_same st); auto.
    + apply (inStep_issue st _ s (DeleteLead (leads st) (_id item))); auto.
      simpl. now rewrite Hp.
  - destruct (nth_error (pending st) k) as [r|] eqn:Hk; [|destruct o; exact H].
    destruct H as (Hs & Hnone & Hlen & Hheld).
    assert (Hr : heldLeads r = leads st).
    { apply Hheld. eapply nth_error_In. exact Hk. }
    assert (Hdrop : dropAt k (pending st) = []).
    { pose proof (length_dropAt (pending st) k r Hk) as Hd.
      destruct (dropAt k (pending st)); [reflexivity|simpl in Hd; lia]. }
    assert (Hf : fetchPending st = false).
    { destruct (fetchPending st) eqn:E; [|reflexivity].
      rewrite (Hnone eq_refl) in Hk. destruct k; discriminate. }
    rewrite Hdrop.
    match goal with
    | |- inStep (effectOpen ?b ?x) ?y =>
        destruct (effectOpen_frame b x) as (Hp' & _ & _ & Hl' & Hf');
        apply (inStep_same x); auto
    end.
    destruct r as [leads0 data|leads0 id], o as [|res]; simpl in *;
      unfold inStep, onSubmit_finally, onSubmit_then, removeLead_then;
      try destruct (truthy (res_error res)); simpl;
      rewrite ?Hf; subst; repeat split; auto; try discriminate;
      try (intros r []); congruence.
  - destruct (tick_frame st)
      as (Hl & _ & _ & _ & _ & _ & _ & _ & _ & Hf & Hp).
    apply (inStep_same st); auto.
Qed.

(** A run in which requests never overlap keeps the lead sequence equal to
    the design document's. *)
Lemma run_inStep (es : list Event) :
  forall (st : State) (s : list ILead),
    inStep st s -> oneAtATime isEmail st es = true ->
    leads (run isEmail st es) = specLeads isEmail st s es.
Proof.
  induction es as [|e es IH]; intros st s H Hone; simpl in *.
  - now destruct H.
  - apply andb_true_iff in Hone. destruct Hone as [Hone Hrest].
    apply IH; [|exact Hrest].
    apply step_inStep; [|exact H].
    destruct e; auto.
Qed.

Lemma mount_inStep : inStep mount [].
Proof.
  unfold inStep; simpl. repeat split; auto. intros r [].
Qed.

(** From the mounted page, as long as the form is only submitted and a delete
    button only clicked while nothing is in flight, the lead sequence is the
    one the design document describes.  Runs with overlapping requests are
    another matter: see the examples at the end. *)
Theorem one_at_a_time_matches_design (es : list Event) :
  oneAtATime isEmail mount es = true ->
  leads (run isEmail mount es) = specLeads isEmail mount [] es.
Proof. apply run_inStep. apply mount_inStep. Qed.

(** ** Validation *)

Lemma schema_name_empty (v : string) :
  schema_name v = None -> v <> "".
Proof.
  unfold schema_name. intros H Hv. subst v. discriminate.
Qed.

Lemma hasErrors_false_name (data : TLeadFormInputs) :
  hasErrors (schema isEmail data) = false -> name data <> "".
Proof.
  unfold hasErrors, schema; simpl. intros H.
  apply schema_name_empty.
  destruct (schema_name (name data)); [discriminate|reflexivity].
Qed.

(** No event puts a POST with an empty name in flight. *)
Lemma step_postsNamed (st : State) (e : Event) :
  postsNamed st -> postsNamed (step isEmail st e).
Proof.
  unfold postsNamed. intros H.
  destruct e; simpl.
  - destruct (fetchPending st); exact H.
  - destruct (fetchPending st); exact H.
  - destruct (loading st); [exact H|].
    unfold effectOpen; simpl. destruct (Bool.eqb (open st) true); exact H.
  - destruct (open st); [|exact H]. exact H.
  - destruct (open st); exact H.
  - destruct (open st && negb (loading st)); [|exact H].
    unfold handleSubmit.
    destruct (hasErrors (schema isEmail (values st))) eqn:Hv; [exact H|].
    simpl. apply Forall_app. split; [exact H|].
    constructor; [|constructor]. now apply hasErrors_false_name.
  - destruct (fetching st); [exact H|].
    destruct (nth_error (leads st) row); [|exact H].
    unfold removeLead.
    assert (Hc : pending (clearCurrentInterval st) = pending st).
    { unfold clearCurrentInterval. destruct (intervalRef st); reflexivity. }
    destruct (_id i =? ""); simpl; rewrite Hc; [exact H|].
    apply Forall_app. split; [exact H|]. constructor; [exact I|constructor].
  - destruct (nth_error (pending st) k); [|exact H].
    apply (Forall_dropAt _ k) in H.
    assert (He : forall s, pending (effectOpen (open st) s) = pending s).
    { intros s0. unfold effectOpen.
      destruct (Bool.eqb (open st) (open s0)); [reflexivity|].
      destruct (open s0); reflexivity. }
    rewrite He.
    destruct r, o; simpl; try exact H.
    + unfold onSubmit_then. destruct (truthy (res_error res)); exact H.
    + unfold removeLead_then. destruct (truthy (res_error res)); exact H.
  - destruct (tick_frame st) as (_ & _ & _ & _ & _ & _ & _ & _ & _ & _ & Hp).
    rewrite Hp. exact H.
Qed.

Lemma run_postsNamed (es : list Event) :
  forall st, postsNamed st -> postsNamed (run isEmail st es).
Proof.
  induction es as [|e es IH]; intros st H; simpl; [exact H|].
  apply IH. now apply step_postsNamed.
Qed.

(** C8.  When the name field of the form is empty, validation reports
    "Name is required" for the name field, which is what the form then
    displays, and submitting sends no request; along any run of the page, no
    POST with an empty name is ever in flight. *)
Theorem empty_name_blocks_create :
  forall st : State,
    name (values st) = "" ->
    err_name (schema isEmail (values st)) = Some "Name is required" /\
    err_name (fieldErrors (render (handleSubmit isEmail st)))
    = Some "Name is required" /\
    pending (handleSubmit isEmail st) = pending st /\
    pending (step isEmail st Submit) = pending st /\
    loading (step isEmail st Submit) = loading st /\
    (forall es leads0 data,
        In (PostLead leads0 data) (pending (run isEmail mount es)) ->
        name data <> "").
Proof.
  intros st Hname.
  assert (Hs : err_name (schema isEmail (values st)) = Some "Name is required").
  { unfold schema; simpl. rewrite Hname. reflexivity. }
  assert (Hh : hasErrors (schema isEmail (values st)) = true).
  { unfold hasErrors. rewrite Hs. reflexivity. }
  assert (Hsub : handleSubmit isEmail st
                 = setErrors (schema isEmail (values st)) st).
  { unfold handleSubmit. rewrite Hh. reflexivity. }
  split; [exact Hs|].
  split; [rewrite Hsub; exact Hs|].
  split; [rewrite Hsub; reflexivity|].
  split; [|split].
  - simpl. destruct (open st && negb (loading st)); [|reflexivity].
    rewrite Hsub; reflexivity.
  - simpl. destruct (open st && negb (loading st)); [|reflexivity].
    rewrite Hsub; reflexivity.
  - intros es leads0 data Hin.
    assert (Hp : postsNamed (run isEmail mount es)).
    { apply run_postsNamed. unfold postsNamed; simpl. constructor. }
    unfold postsNamed in Hp. rewrite Forall_forall in Hp.
    apply (Hp _ Hin).
Qed.

(** ** Fetch *)

Lemma run_app (es es' : list Event) :
  forall st, run isEmail st (es ++ es') = run isEmail (run isEmail st es) es'.
Proof.
  induction es as [|e es IH]; intros st; simpl; [reflexivity|apply IH].
Qed.

(** The GET of the mount effect ends once: afterwards no fetch is in
    flight, and nothing starts another. *)
Lemma step_fetchPending (st : State) (e : Event) :
  fetchPending (step isEmail st e)
  = match e with
    | FetchOk _ | FetchFail _ => false
    | _ => fetchPending st
    end.
Proof.
  destruct e;
    try (destruct st as [? ? ? ? ? ? ? ? ? ? ? ? ?];
         unfold_handlers; simpl; split_cases; congruence).
  change (step isEmail st Tick) with (tick st).
  now destruct (tick_frame st) as (_ & _ & _ & _ & _ & _ & _ & _ & _ & Hf & _).
Qed.

Lemma run_fetchPending_false (es : list Event) :
  forall st, fetchPending st = false ->
             fetchPending (run isEmail st es) = false.
Proof.
  induction es as [|e es IH]; intros st H; simpl; [exact H|].
  apply IH. rewrite step_fetchPending. destruct e; auto.
Qed.

Lemma fetchReplaced_once (es : list Event) :
  forall st, fetchReplaced isEmail st es = true ->
             fetchPending (run isEmail st es) = false.
Proof.
  induction es as [|e es IH]; intros st H; simpl in *; [discriminate|].
  apply orb_true_iff in H. destruct H as [H|H]; [|now apply IH].
  apply run_fetchPending_false. rewrite step_fetchPending.
  destruct e; try discriminate. reflexivity.
Qed.

Lemma fetchReplaced_app (es : list Event) (e : Event) :
  forall st,
    fetchReplaced isEmail st (es ++ [e])
    = fetchReplaced isEmail st es
      || match e with
         | FetchOk _ => fetchPending (run isEmail st es)
         | _ => false
         end.
Proof.
  induction es as [|e0 es IH]; intros st; simpl.
  - now rewrite orb_false_r.
  - rewrite IH. now rewrite orb_assoc.
Qed.

(** C9.  When the fetch fails (its promise rejects while the request is in
    flight): the message becomes the page error, and is on screen when it is
    not empty; the lead sequence is what it was before; the loading row is
    gone, and the table shows the empty-state row exactly when that sequence
    is empty; no fetch has replaced the sequence at any point of the run. *)
Theorem fetch_failure_keeps_leads :
  forall (es : list Event) (message : string),
    fetchPending (run isEmail mount es) = true ->
    error (step isEmail (run isEmail mount es) (FetchFail message))
    = Some message /\
    (truthy (Some message) = true ->
     visibleError
       (render (step isEmail (run isEmail mount es) (FetchFail message)))
     = Some message) /\
    leads (step isEmail (run isEmail mount es) (FetchFail message))
    = leads (run isEmail mount es) /\
    fetching (step isEmail (run isEmail mount es) (FetchFail message))
    = false /\
    (tbody (render (step isEmail (run isEmail mount es) (FetchFail message)))
     = NoLeadsRow <-> leads (run isEmail mount es) = []) /\
    fetchReplaced isEmail mount (es ++ [FetchFail message]) = false.
Proof.
  intros es message Hp.
  assert (Hst : step isEmail (run isEmail mount es) (FetchFail message)
                = fetchLeads_catch message
                    (setFetchPending false (run isEmail mount es))).
  { simpl. rewrite Hp. reflexivity. }
  rewrite Hst.
  split; [reflexivity|].
  split; [intros Ht; rewrite visibleError_render; [reflexivity|exact Ht]|].
  split; [reflexivity|].
  split; [reflexivity|].
  split.
  - unfold render; simpl.
    destruct (leads (run isEmail mount es)); split; intros H;
      try reflexivity; discriminate.
  - rewrite fetchReplaced_app, orb_false_r.
    destruct (fetchReplaced isEmail mount es) eqn:Hr; [|reflexivity].
    apply fetchReplaced_once in Hr. congruence.
Qed.

(** ** The error interval over time *)

Lemma tick_eq_or_cleared (st : State) :
  error (tick st) = None \/ tick st = setNow (now st + 1)%N st.
Proof. unfold tick. apply fire_error_or_same. Qed.

Lemma elapsed_cons (e : Event) (es : list Event) :
  (e = Tick /\ elapsed (e :: es) = (1 + elapsed es)%N) \/
  (e <> Tick /\ elapsed (e :: es) = elapsed es).
Proof. destruct e; simpl; (now left) || (right; split; [discriminate|reflexivity]). Qed.

Lemma tick_clearsWithin (n : N) (st : State) :
  clearsWithin (n + 1) st -> clearsWithin n (tick st).
Proof.
  intros [He|(_ & t & Hr & Hin)].
  - left. destruct (tick_eq_or_cleared st) as [H|H]; [exact H|].
    rewrite H. exact He.
  - destruct (N.eq_dec n 0) as [Hn|Hn].
    + left. subst n. unfold tick.
      apply (fire_due_clears _ _ t (now st + (0 + 1))%N).
      * exact Hin.
      * simpl. lia.
      * apply (In_isPending t (now st + (0 + 1))%N). exact Hin.
    + destruct (tick_eq_or_cleared st) as [H|H]; [now left|].
      right. rewrite H. split; [lia|]. exists t. split; [exact Hr|].
      simpl. replace (now st + 1 + n)%N with (now st + (n + 1))%N by lia.
      exact Hin.
Qed.

Lemma step_clearsWithin (n : N) (st : State) (e : Event) :
  isClickRemove e = false -> isFailure e = false -> e <> Tick ->
  clearsWithin n st -> clearsWithin n (step isEmail st e).
Proof.
  intros Hr Hf Ht H.
  destruct (step_calm st e Hr Hf Ht) as (Href & Htm & Hnow & Herr).
  unfold clearsWithin in *. rewrite Href, Htm, Hnow.
  destruct Herr as [Herr|Herr]; [rewrite Herr; exact H|now left].
Qed.

(** If the interval in the ref is due in [n] ms, then after [n] ms without a
    click on a delete button and without a reported failure the message is
    gone. *)
Lemma run_clearsWithin (es : list Event) :
  forall (st : State) (n : N),
    clearsWithin n st ->
    existsb isClickRemove es = false -> existsb isFailure es = false ->
    elapsed es = n ->
    error (run isEmail st es) = None.
Proof.
  induction es as [|e es IH]; intros st n H Hr Hf Hn.
  - simpl in *. subst n. destruct H as [H|(H & _)]; [exact H|lia].
  - simpl in Hr, Hf. apply orb_false_iff in Hr, Hf.
    destruct Hr as [Hr Hrs], Hf as [Hf Hfs].
    destruct (elapsed_cons e es) as [(He & Hel)|(He & Hel)];
      rewrite Hel in Hn; simpl.
    + subst e. apply (IH _ (elapsed es)); auto.
      apply tick_clearsWithin. now replace (elapsed es + 1)%N with n by lia.
    + apply (IH _ n); auto. now apply step_clearsWithin.
Qed.

Lemma tick_firstDueIn (t : nat) (n : N) (st : State) :
  (1 <= n)%N -> firstDueIn t (n + 1) st -> firstDueIn t n (tick st).
Proof.
  intros Hn (Hb & Hin & Hmin).
  assert (Ht : tick st = setNow (now st + 1)%N st).
  { unfold tick. apply fire_none_due. simpl. intros x Hx.
    specialize (Hmin x Hx). lia. }
  rewrite Ht. unfold firstDueIn; simpl.
  replace (now st + 1 + n)%N with (now st + (n + 1))%N by lia.
  repeat split; auto; lia.
Qed.

Lemma step_firstDueIn (t : nat) (n : N) (st : State) (e : Event) :
  isClickRemove e = false -> e <> Tick ->
  firstDueIn t n st -> firstDueIn t n (step isEmail st e).
Proof.
  intros Hr Ht (Hb & Hin & Hmin).
  destruct (step_timers st e Hr Ht) as (Hnow & [Htm|Htm]);
    unfold firstDueIn; rewrite Hnow, Htm.
  - repeat split; auto; lia.
  - repeat split; try lia.
    + apply in_or_app. now left.
    + intros x Hx. apply in_app_or in Hx. destruct Hx as [Hx|[Hx|[]]].
      * now apply Hmin.
      * subst x. simpl. lia.
Qed.

(** An interval that is the first one due stays so, whatever happens, until
    a delete button is clicked. *)
Lemma run_firstDueIn (t : nat) (es : list Event) :
  forall (st : State) (n : N),
    (1 <= n)%N ->
    firstDueIn t (elapsed es + n) st ->
    existsb isClickRemove es = false ->
    firstDueIn t n (run isEmail st es).
Proof.
  induction es as [|e es IH]; intros st n Hn H Hr.
  - exact H.
  - simpl in Hr. apply orb_false_iff in Hr. destruct Hr as [Hr Hrs].
    destruct (elapsed_cons e es) as [(He & Hel)|(He & Hel)];
      rewrite Hel in H; simpl.
    + subst e. apply IH; auto. apply tick_firstDueIn; [lia|].
      now replace (elapsed es + n + 1)%N with (1 + elapsed es + n)%N by lia.
    + apply IH; auto. now apply step_firstDueIn.
Qed.

Lemma tick_firstDue_clears (t : nat) (st : State) :
  firstDueIn t 1 st -> error (tick st) = None.
Proof.
  intros (_ & Hin & _). unfold tick.
  apply (fire_due_clears _ _ t (now st + 1)%N).
  - exact Hin.
  - simpl. lia.
  - now apply (In_isPending t (now st + 1)%N).
Qed.

(** Only a click on a delete button or the firing of an interval takes an
    interval off the pending list. *)
Lemma only_remove_cancels (st : State) (e : Event) (t : nat) :
  isPending t st = true -> isPending t (step isEmail st e) = false ->
  isClickRemove e = true \/ e = Tick.
Proof.
  intros Hp Hq.
  destruct (isClickRemove e) eqn:Hr; [now left|].
  destruct (elapsed_cons e []) as [(He & _)|(He & _)]; [now right|].
  exfalso.
  destruct (step_timers st e Hr He) as (_ & [Htm|Htm]);
    unfold isPending, timerIds in *; rewrite Htm in Hq.
  - congruence.
  - rewrite map_app, existsb_app in Hq.
    apply orb_false_iff in Hq. destruct Hq as [Hq _].
    exact (eq_true_false_abs _ Hp Hq).
Qed.

(** *** One interval at a time *)

Lemma oneInterval_same (st st' : State) :
  deletesInFlight st' = deletesInFlight st ->
  timers st' = timers st -> intervalRef st' = intervalRef st ->
  oneInterval st -> oneInterval st'.
Proof.
  unfold oneInterval. intros Hd Ht Hr H. rewrite Hd, Ht, Hr. exact H.
Qed.

Lemma step_oneInterval (st : State) (e : Event) :
  (isClickRemove e = true -> deletesInFlight st = 0%nat) ->
  oneInterval st -> oneInterval (step isEmail st e).
Proof.
  intros Hap H.
  destruct e; simpl.
  - destruct (fetchPending st); [|exact H].
    apply (oneInterval_same st); auto.
  - destruct (fetchPending st); [|exact H].
    apply (oneInterval_same st); auto.
  - destruct (loading st); [exact H|].
    destruct (effectOpen_frame (open st) (setOpen true st)) as (Hp & Ht & Hr & _).
    apply (oneInterval_same st); auto; unfold deletesInFlight; now rewrite Hp.
  - destruct (open st) eqn:Ho; [|exact H].
    destruct (effectOpen_frame true (setOpen false st)) as (Hp & Ht & Hr & _).
    apply (oneInterval_same st); auto; unfold deletesInFlight; now rewrite Hp.
  - destruct (open st); [|exact H]. apply (oneInterval_same st); auto.
  - destruct (open st && negb (loading st)); [|exact H].
    unfold handleSubmit. destruct (hasErrors _).
    + apply (oneInterval_same st); auto.
    + apply (oneInterval_same st); auto.
      unfold deletesInFlight, onSubmit; simpl.
      rewrite filter_app, length_app; simpl. lia.
  - destruct (fetching st); [exact H|].
    destruct (nth_error (leads st) row) as [item|]; [|exact H].
    specialize (Hap eq_refl).
    destruct H as (_ & _ & Hlen & Href).
    destruct (clearCurrentInterval_frame st) as (Hp & Hr & _).
    assert (Ht : timers (clearCurrentInterval st) = []).
    { unfold clearCurrentInterval.
      destruct (timers st) as [|x ts] eqn:Hts.
      - destruct (intervalRef st); [unfold clearInterval; simpl|];
          rewrite Hts; reflexivity.
      - destruct ts; [|simpl in Hlen; lia].
        rewrite (Href x (or_introl eq_refl)).
        unfold clearInterval; simpl. rewrite Hts; simpl.
        now rewrite Nat.eqb_refl. }
    unfold removeLead.
    destruct (_id item =? "").
    + unfold oneInterval. rewrite Ht. unfold deletesInFlight. rewrite Hp.
      fold (deletesInFlight st). rewrite Hap.
      repeat split; simpl; auto; try lia; intros x [].
    + unfold oneInterval, deletesInFlight; simpl.
      rewrite Ht, Hp, filter_app, length_app.
      fold (deletesInFlight st). rewrite Hap.
      repeat split; simpl; auto; try lia; intros x [].
  - destruct (nth_error (pending st) k) as [r|] eqn:Hk; [|exact H].
    pose proof (filter_dropAt isDelete (pending st) k r Hk) as Hcount.
    fold (deletesInFlight st) in Hcount.
    destruct H as (Hd & Hnone & Hlen & Href).
    match goal with
    | |- oneInterval (effectOpen ?b ?s) =>
        destruct (effectOpen_frame b s) as (Hp & Ht & Hr & _);
        apply (oneInterval_same s); auto;
        [unfold deletesInFlight; now rewrite Hp|]
    end.
    destruct r as [leads0 data|leads0 id]; simpl in Hcount.
    + (* a POST ends *)
      assert (Hsame : oneInterval (setPending (dropAt k (pending st)) st)).
      { unfold oneInterval, deletesInFlight; simpl.
        unfold deletesInFlight in *.
        replace (length (filter isDelete (dropAt k (pending st))))
          with (length (filter isDelete (pending st))) by lia.
        auto. }
      destruct o as [|res]; simpl.
      * apply (oneInterval_same (setPending (dropAt k (pending st)) st));
          auto.
      * unfold onSubmit_finally, onSubmit_then.
        destruct (truthy (res_error res));
          apply (oneInterval_same (setPending (dropAt k (pending st)) st));
          auto.
    + (* a DELETE ends *)
      assert (Hzero : length (filter isDelete (dropAt k (pending st))) = 0%nat)
        by (unfold deletesInFlight in *; lia).
      assert (Hts : timers st = []) by (apply Hnone; unfold deletesInFlight in *; lia).
      destruct o as [|res]; simpl.
      * unfold oneInterval, deletesInFlight; simpl. rewrite Hzero, Hts.
        repeat split; simpl; auto; try lia; intros x [].
      * unfold removeLead_then. destruct (truthy (res_error res)).
        -- unfold oneInterval, deletesInFlight, startErrorInterval; simpl.
           rewrite Hzero, Hts.
           repeat split; simpl; auto; try lia;
             intros x [Hx|[]]; now subst x.
        -- unfold oneInterval, deletesInFlight; simpl. rewrite Hzero, Hts.
           repeat split; simpl; auto; try lia; intros x [].
  - destruct (tick_frame st)
      as (_ & _ & _ & _ & Hr & _ & _ & _ & _ & _ & Hp).
    destruct (tick_noNewTimer st) as (Hlen' & Hin').
    destruct H as (Hd & Hnone & Hlen & Href).
    unfold oneInterval, deletesInFlight. rewrite Hp, Hr.
    fold (deletesInFlight st).
    split; [exact Hd|]. split; [|split].
    + intros H1. specialize (Hnone H1). rewrite Hnone in Hlen'.
      destruct (timers (tick st)); [reflexivity|simpl in Hlen'; lia].
    + lia.
    + intros x Hx. specialize (Hin' x Hx). unfold timerIds in Hin'.
      apply in_map_iff in Hin'. destruct Hin' as (y & Hy & Hyin).
      rewrite <- Hy. now apply Href.
Qed.

Lemma run_oneInterval (es : list Event) :
  forall st, oneInterval st -> removesApart isEmail st es = true ->
             oneInterval (run isEmail st es).
Proof.
  induction es as [|e es IH]; intros st H Hap; simpl in *; [exact H|].
  apply andb_true_iff in Hap. destruct Hap as [Hap Hrest].
  apply IH; [|exact Hrest].
  apply step_oneInterval; [|exact H].
  intros He. rewrite He in Hap. simpl in Hap. now apply Nat.eqb_eq.
Qed.

Lemma mount_oneInterval : oneInterval mount.
Proof.
  unfold oneInterval; simpl.
  repeat split; auto; try lia; try discriminate; intros x [].
Qed.

(** What a refused delete leaves behind. *)
Lemma delete_refused_state (mid : State) (leads0 : list ILead) (id : string)
      (k : nat) (res : Response) :
  nth_error (pending mid) k = Some (DeleteLead leads0 id) ->
  truthy (res_error res) = true ->
  error (step isEmail mid (Settle k (Replied res))) = res_error res /\
  leads (step isEmail mid (Settle k (Replied res))) = leads mid /\
  open (step isEmail mid (Settle k (Replied res))) = open mid /\
  now (step isEmail mid (Settle k (Replied res))) = now mid /\
  intervalRef (step isEmail mid (Settle k (Replied res)))
  = Some (nextTimer mid) /\
  timers (step isEmail mid (Settle k (Replied res)))
  = (timers mid ++ [(nextTimer mid, (now mid + errorDuration)%N)])%list.
Proof.
  intros Hk Herr. unfold step. rewrite Hk.
  unfold settle, removeLead_then. rewrite Herr.
  destruct mid as [? ? [|] ? ? ? ? ? ? ? ? ? ?]; repeat split; reflexivity.
Qed.

(** Every call of remove starts by cancelling the interval held in the ref. *)
Lemma removeLead_cancels (st : State) (id : string) (t : nat) :
  intervalRef st = Some t -> isPending t (removeLead id st) = false.
Proof.
  intros Hr.
  assert (H : timerIds (removeLead id st)
              = map fst (filter (fun x => negb (Nat.eqb (fst x) t))
                                (timers st))).
  { unfold removeLead, clearCurrentInterval, timerIds. rewrite Hr.
    destruct (id =? ""); reflexivity. }
  unfold isPending. rewrite H.
  destruct (existsb _ _) eqn:E; [|reflexivity].
  apply existsb_exists in E. destruct E as (x & Hx & Hxt).
  apply in_map_iff in Hx. destruct Hx as (y & Hy & Hf).
  apply filter_In in Hf. destruct Hf as [_ Hf].
  apply Nat.eqb_eq in Hxt. subst x t.
  rewrite Nat.eqb_refl in Hf. discriminate.
Qed.

(** C4, as the code has it.  A delete whose response carries a truthy (that
    is, non-empty) [error]: as soon as it is answered the message is the page
    error and is on screen, and an interval due 4 seconds later is pending
    and held in the ref; if during those 4 seconds no delete button is
    clicked and no operation reports a failure, the message is gone when they
    are over.  Every call of remove first cancels the interval held in the
    ref, so that two intervals are never pending at once as long as no delete
    button is clicked while a delete is in flight. *)
Theorem delete_refused_error_window :
  forall (mid : State) (leads0 : list ILead) (id : string) (k : nat)
         (res : Response) (es : list Event),
    nth_error (pending mid) k = Some (DeleteLead leads0 id) ->
    truthy (res_error res) = true ->
    existsb isClickRemove es = false ->
    existsb isFailure es = false ->
    elapsed es = errorDuration ->
    error (step isEmail mid (Settle k (Replied res))) = res_error res /\
    visibleError (render (step isEmail mid (Settle k (Replied res))))
    = res_error res /\
    intervalRef (step isEmail mid (Settle k (Replied res)))
    = Some (nextTimer mid) /\
    In (nextTimer mid, (now mid + errorDuration)%N)
       (timers (step isEmail mid (Settle k (Replied res)))) /\
    error (run isEmail (step isEmail mid (Settle k (Replied res))) es)
    = None /\
    visibleError
      (render (run isEmail (step isEmail mid (Settle k (Replied res))) es))
    = None /\
    (forall (st : State) (id' : string) (t : nat),
        intervalRef st = Some t -> isPending t (removeLead id' st) = false) /\
    (forall es' : list Event,
        removesApart isEmail mount es' = true ->
        (length (timers (run isEmail mount es')) <= 1)%nat).
Proof.
  intros mid leads0 id k res es Hk Herr Hr Hf Hel.
  destruct (delete_refused_state mid leads0 id k res Hk Herr)
    as (He & _ & _ & Hnow & Href & Htm).
  assert (Hin : In (nextTimer mid, (now mid + errorDuration)%N)
                   (timers (step isEmail mid (Settle k (Replied res))))).
  { rewrite Htm. apply in_or_app. right. now left. }
  assert (Hgone : error (run isEmail
                           (step isEmail mid (Settle k (Replied res))) es)
                  = None).
  { apply (run_clearsWithin es _ errorDuration); auto.
    right. split; [unfold errorDuration; lia|].
    exists (nextTimer mid). split; [exact Href|]. now rewrite Hnow. }
  split; [exact He|].
  split; [rewrite visibleError_render; [exact He|now rewrite He]|].
  split; [exact Href|].
  split; [exact Hin|].
  split; [exact Hgone|].
  split; [apply visibleError_none; exact Hgone|].
  split; [intros st id' t; apply removeLead_cancels|].
  intros es' Hap.
  destruct (run_oneInterval es' mount mount_oneInterval Hap)
    as (_ & _ & Hlen & _).
  exact Hlen.
Qed.

(** C10, as the code has it.  The interval started by a refused delete clears
    the page error when it fires 4 seconds later, whichever operation set the message displayed
    by then: if no other interval was pending and no delete button is
    clicked in the meantime, then whatever else happens (a refused create, a
    failed fetch, a successful operation) the interval is still pending, and
    the first one due, 1 ms before the 4 seconds are over, and the page error
    is null once they are.  The callback clears the error whatever it is, so
    the error is null after any millisecond in which a pending interval
    comes due; and the only events that take an interval off the pending list are a click on
    a delete button and the firing of an interval. *)
Theorem interval_clears_any_error :
  forall (mid : State) (leads0 : list ILead) (id : string) (k : nat)
         (res : Response) (es : list Event),
    nth_error (pending mid) k = Some (DeleteLead leads0 id) ->
    truthy (res_error res) = true ->
    timers mid = [] ->
    existsb isClickRemove es = false ->
    (elapsed es + 1)%N = errorDuration ->
    isPending (nextTimer mid)
              (run isEmail (step isEmail mid (Settle k (Replied res))) es)
    = true /\
    error (step isEmail
             (run isEmail (step isEmail mid (Settle k (Replied res))) es)
             Tick) = None /\
    (forall st : State, error (intervalCallback st) = None) /\
    (forall (st : State) (t : nat) (due : N),
        In (t, due) (timers st) -> (due <= now st + 1)%N ->
        error (step isEmail st Tick) = None) /\
    (forall (st : State) (e : Event) (t : nat),
        isPending t st = true -> isPending t (step isEmail st e) = false ->
        isClickRemove e = true \/ e = Tick).
Proof.
  intros mid leads0 id k res es Hk Herr Hts Hr Hel.
  destruct (delete_refused_state mid leads0 id k res Hk Herr)
    as (_ & _ & _ & Hnow & _ & Htm).
  rewrite Hts, app_nil_l in Htm.
  assert (Hfirst : firstDueIn (nextTimer mid) 1
                     (run isEmail
                        (step isEmail mid (Settle k (Replied res))) es)).
  { apply run_firstDueIn; [lia| |exact Hr].
    rewrite Hel. unfold firstDueIn. rewrite Htm, Hnow.
    split; [unfold errorDuration; lia|].
    split; [now left|].
    intros x [Hx|[]]. subst x. simpl. lia. }
  split.
  { destruct Hfirst as (_ & Hin & _). eapply In_isPending; exact Hin. }
  split; [exact (tick_firstDue_clears _ _ Hfirst)|].
  split; [exact intervalCallback_error|].
  split; [|intros st e t; apply only_remove_cancels].
  intros st t due Hin Hdue. simpl. unfold tick.
  apply (fire_due_clears _ _ t due); [exact Hin|simpl; lia|].
  now apply (In_isPending t due).
Qed.

End Properties.

(** * Examples *)

(** The design document's example of a successful create: the response for
    Ada is appended to the fetched list and the modal closes. *)
Lemma create_success_appends_witness :
  res_error created = None /\
  nth_error (pending submitted) 0
  = Some (PostLead (leads filledIn) adaInputs) /\
  open (step coarseEmail submitted (Settle 0 (Replied created))) = false /\
  leads (step coarseEmail submitted (Settle 0 (Replied created)))
  = [ada; bob; res_body created].
Proof.
  split; [reflexivity|]. split; [reflexivity|].
  destruct (create_success_appends coarseEmail filledIn submitted adaInputs
              0%nat created eq_refl eq_refl)
    as (_ & Ho & _ & _ & _ & Hl & _).
  split; [exact Ho|exact Hl].
Defined.



(** The design document's example of a successful delete. *)
Lemma remove_success_filters_witness :
  ("1" =? "") = false /\
  res_error emptyBody = None /\
  nth_error (pending deleting) 0 = Some (DeleteLead (leads fetched) "1") /\
  leads (step coarseEmail deleting (Settle 0 (Replied emptyBody))) = [bob].
Proof.
  split; [reflexivity|]. split; [reflexivity|]. split; [reflexivity|].
  destruct (remove_success_filters coarseEmail fetched deleting "1" 0%nat
              emptyBody eq_refl eq_refl eq_refl)
    as (_ & Hl & _).
  exact Hl.
Defined.

(** The design document's example of a refused delete: the message is there
    at once and gone 4 seconds later. *)
Lemma delete_refused_error_window_witness :
  nth_error (pending deleting) 0 = Some (DeleteLead (leads fetched) "1") /\
  truthy (res_error leadNotFound) = true /\
  existsb isClickRemove (repeat Tick 4000) = false /\
  existsb isFailure (repeat Tick 4000) = false /\
  elapsed (repeat Tick 4000) = errorDuration /\
  visibleError (render deleteRefused) = Some "Lead not found" /\
  visibleError (render (run coarseEmail deleteRefused (repeat Tick 4000)))
  = None.
Proof.
  split; [reflexivity|]. split; [reflexivity|].
  split; [vm_compute; reflexivity|]. split; [vm_compute; reflexivity|].
  split; [vm_compute; reflexivity|].
  destruct (delete_refused_error_window coarseEmail deleting (leads fetched)
              "1" 0%nat leadNotFound (repeat Tick 4000) eq_refl eq_refl
              ltac:(vm_compute; reflexivity) ltac:(vm_compute; reflexivity)
              ltac:(vm_compute; reflexivity))
    as (_ & Hv & _ & _ & _ & Hg & _).
  split; [exact Hv|exact Hg].
Defined.

(** C4 fails as stated, in two ways.  First: a delete is refused, 1 ms later
    another delete is started and succeeds, and no operation fails during the
    4 seconds; the call of remove cancelled the interval, so the message is
    still on screen when the 4 seconds are over.  Second: two deletes are in
    flight at once and both are refused; each starts an interval and neither
    cancels the other, so two intervals are pending together. *)
Lemma delete_error_window_counterexample :
  visibleError (render deleteRefused) = Some "Lead not found" /\
  existsb isFailure laterDeleteSucceeds = false /\
  elapsed laterDeleteSucceeds = errorDuration /\
  timers (run coarseEmail deleteRefused laterDeleteSucceeds) = [] /\
  visibleError (render (run coarseEmail deleteRefused laterDeleteSucceeds))
  = Some "Lead not found" /\
  timers (run coarseEmail mount
            (twoDeletes ++ [Settle 0 (Replied leadNotFound);
                            Settle 0 (Replied leadNotFound)]))
  = [(1%nat, 4000%N); (2%nat, 4000%N)].
Proof. repeat split; vm_compute; reflexivity. Qed.

(** C5 fails as stated: while the interval of a refused delete is pending, a
    remove with an empty id (the delete button of a row whose lead has no id)
    cancels it; the message is then still there after 4 seconds. *)
Lemma remove_empty_id_counterexample :
  timers refusedWithNoId = [(1%nat, 4000%N)] /\
  step coarseEmail refusedWithNoId (ClickRemove 1)
  = removeLead "" refusedWithNoId /\
  timers (removeLead "" refusedWithNoId) = [] /\
  error (run coarseEmail refusedWithNoId (repeat Tick 4000)) = None /\
  error (run coarseEmail (removeLead "" refusedWithNoId) (repeat Tick 4000))
  = Some "Lead not found".
Proof. repeat split; vm_compute; reflexivity. Qed.

(** Closing the modal clears the message of a refused create. *)
Lemma open_change_clears_on_close_witness :
  Bool.eqb (open (step coarseEmail createRefused CloseModal))
           (open createRefused) = false /\
  error createRefused = Some "Email already exists" /\
  error (step coarseEmail createRefused CloseModal) = None.
Proof.
  split; [reflexivity|]. split; [reflexivity|].
  destruct (open_change_clears_on_close coarseEmail createRefused CloseModal
              eq_refl) as (Hc & _).
  apply Hc. reflexivity.
Defined.

(** C6 fails as stated: opening the modal changes the open flag and leaves
    the page error in place; the message of the refused delete is then
    displayed inside the modal. *)
Lemma open_modal_keeps_error_counterexample :
  open deleteRefused = false /\
  error deleteRefused = Some "Lead not found" /\
  open (step coarseEmail deleteRefused ClickAddNew) = true /\
  error (step coarseEmail deleteRefused ClickAddNew) = Some "Lead not found" /\
  visibleError (render (step coarseEmail deleteRefused ClickAddNew))
  = Some "Lead not found".
Proof. repeat split; reflexivity. Qed.

(** C7 on a run in which two deletes overlap.  Both handlers hold the list
    [ada; bob].  The first answer leaves [bob]; the second filters the held
    list, not the current one, and brings [ada] back: the page shows a lead
    that was deleted, where the design document's sequence is empty. *)
Lemma overlapping_deletes_restore_lead :
  leads (run coarseEmail mount
           (twoDeletes ++ [Settle 0 (Replied emptyBody)])) = [bob] /\
  leads (run coarseEmail mount
           (twoDeletes ++ [Settle 0 (Replied emptyBody);
                           Settle 0 (Replied emptyBody)])) = [ada] /\
  renderedLeads
    (render (run coarseEmail mount
               (twoDeletes ++ [Settle 0 (Replied emptyBody);
                               Settle 0 (Replied emptyBody)]))) = [ada] /\
  specLeads coarseEmail mount []
            (twoDeletes ++ [Settle 0 (Replied emptyBody);
                            Settle 0 (Replied emptyBody)]) = [].
Proof. repeat split; reflexivity. Qed.

(** A form without a name is not sent. *)
Lemma empty_name_blocks_create_witness :
  name (values nameMissing) = "" /\
  err_name (fieldErrors (render (step coarseEmail nameMissing Submit)))
  = Some "Name is required" /\
  pending (step coarseEmail nameMissing Submit) = [].
Proof.
  split; [reflexivity|].
  destruct (empty_name_blocks_create coarseEmail nameMissing eq_refl)
    as (_ & He & _ & Hp & _).
  split; [exact He|exact Hp].
Defined.

(** The fetch of the mount effect fails before anything else happens. *)
Lemma fetch_failure_keeps_leads_witness :
  fetchPending (run coarseEmail mount []) = true /\
  error (step coarseEmail mount (FetchFail "Failed to fetch"))
  = Some "Failed to fetch" /\
  leads (step coarseEmail mount (FetchFail "Failed to fetch")) = [] /\
  tbody (render (step coarseEmail mount (FetchFail "Failed to fetch")))
  = NoLeadsRow.
Proof.
  split; [reflexivity|].
  destruct (fetch_failure_keeps_leads coarseEmail [] "Failed to fetch" eq_refl)
    as (He & _ & Hl & _ & Ht & _).
  split; [exact He|]. split; [exact Hl|].
  apply Ht. reflexivity.
Defined.

(** A delete is refused, then a create is refused: 1 ms before the 4 seconds
    of the delete are over the message of the create is on screen, and the
    interval of the delete clears it. *)
Lemma interval_clears_any_error_witness :
  nth_error (pending deleting) 0 = Some (DeleteLead (leads fetched) "1") /\
  truthy (res_error leadNotFound) = true /\
  timers deleting = [] /\
  existsb isClickRemove createRefusedMeanwhile = false /\
  (elapsed createRefusedMeanwhile + 1)%N = errorDuration /\
  error (run coarseEmail deleteRefused createRefusedMeanwhile)
  = Some "Email already exists" /\
  error (step coarseEmail
           (run coarseEmail deleteRefused createRefusedMeanwhile) Tick)
  = None.
Proof.
  split; [reflexivity|]. split; [reflexivity|]. split; [reflexivity|].
  split; [vm_compute; reflexivity|]. split; [vm_compute; reflexivity|].
  split; [vm_compute; reflexivity|].
  destruct (interval_clears_any_error coarseEmail deleting (leads fetched)
              "1" 0%nat leadNotFound createRefusedMeanwhile eq_refl eq_refl
              eq_refl ltac:(vm_compute; reflexivity)
              ltac:(vm_compute; reflexivity))
    as (_ & Hc & _).
  exact Hc.
Defined.

(** * Further properties *)

Section MoreProperties.

Variable isEmail : string -> bool.

(** ** The schema, field by field *)

Lemma eqb_empty_length (v : string) :
  (v =? "") = true <-> String.length v = 0%nat.
Proof.
  destruct v; simpl; split; intros H; try reflexivity; discriminate.
Qed.

Lemma status_in_enum (v : string) :
  existsb (String.eqb v) ELeadStatus_values = true <->
  exists s : ELeadStatus, v = ELeadStatus_value s.
Proof.
  split.
  - intros H. apply existsb_exists in H. destruct H as (x & Hin & Hx).
    apply String.eqb_eq in Hx. subst x.
    unfold ELeadStatus_values in Hin. apply in_map_iff in Hin.
    destruct Hin as (s & Hs & _). now exists s.
  - intros (s & Hs). apply existsb_exists. exists v.
    split; [|apply String.eqb_refl].
    subst v. unfold ELeadStatus_values. apply in_map.
    destruct s; simpl; tauto.
Qed.

(** The schema accepts a form exactly when the name has 1 to 20 characters,
    the e-mail is not empty and passes the address check, and the status is
    the value of a member of the enumeration.  (A string is the sequence of
    its code units, which is what [max(20)] counts.) *)
Theorem schema_accepts_iff (data : TLeadFormInputs) :
  hasErrors (schema isEmail data) = false <->
  (1 <= String.length (name data) <= 20)%nat /\
  email data <> "" /\ isEmail (email data) = true /\
  (exists s : ELeadStatus, status data = ELeadStatus_value s).
Proof.
  unfold hasErrors, schema, schema_name, schema_email, schema_status.
  cbn [err_name err_email err_status].
  rewrite <- status_in_enum.
  destruct (name data =? "") eqn:Hn.
  { split; [discriminate|]. intros ((H & _) & _).
    apply eqb_empty_length in Hn. lia. }
  assert (Hlen : (1 <= String.length (name data))%nat).
  { destruct (name data); [discriminate|simpl; lia]. }
  destruct (Nat.ltb 20 (String.length (name data))) eqn:Hmax.
  { split; [discriminate|]. intros ((_ & H) & _).
    apply Nat.ltb_lt in Hmax. lia. }
  apply Nat.ltb_ge in Hmax.
  destruct (email data =? "") eqn:He.
  { split; [discriminate|]. intros (_ & H & _).
    apply String.eqb_eq in He. contradiction. }
  apply String.eqb_neq in He.
  destruct (isEmail (email data)).
  2:{ split; [discriminate|]. intros (_ & _ & H & _). discriminate. }
  destruct (existsb (String.eqb (status data)) ELeadStatus_values).
  - split; [intros _; repeat split; auto|reflexivity].
  - split; [discriminate|]. intros (_ & _ & _ & H). discriminate.
Qed.

(** The message of each field: an empty name or e-mail is reported as
    required, before its length or syntax is looked at; a name of more than
    20 characters, an e-mail that fails the address check and a status
    outside the enumeration each have their own message; every option of the
    status [<select>] is accepted. *)
Theorem schema_messages (data : TLeadFormInputs) :
  (err_name (schema isEmail data) = Some "Name is required"
   <-> name data = "") /\
  (err_name (schema isEmail data) = Some "Name cannot exceed 20 characters"
   <-> (20 < String.length (name data))%nat) /\
  (err_email (schema isEmail data) = Some "Email is required"
   <-> email data = "") /\
  (err_email (schema isEmail data) = Some "Invalid email address"
   <-> email data <> "" /\ isEmail (email data) = false) /\
  (err_status (schema isEmail data) = Some "Invalid status"
   <-> forall s : ELeadStatus, status data <> ELeadStatus_value s) /\
  (forall s : ELeadStatus,
      In (ELeadStatus_value s) ELeadStatus_values /\
      err_status (schema isEmail (mkInputs (name data) (email data)
                                           (ELeadStatus_value s))) = None).
Proof.
  unfold schema, schema_name, schema_email, schema_status.
  cbn [err_name err_email err_status name email status].
  split; [|split; [|split; [|split; [|split]]]].
  - destruct (name data =? "") eqn:Hn.
    + apply String.eqb_eq in Hn. split; auto.
    + apply String.eqb_neq in Hn.
      split; [|intros H; contradiction].
      destruct (Nat.ltb 20 _); discriminate.
  - destruct (name data =? "") eqn:Hn.
    + apply eqb_empty_length in Hn. split; [discriminate|lia].
    + destruct (Nat.ltb 20 _) eqn:Hm.
      * apply Nat.ltb_lt in Hm. split; auto.
      * apply Nat.ltb_ge in Hm. split; [discriminate|lia].
  - destruct (email data =? "") eqn:He.
    + apply String.eqb_eq in He. split; auto.
    + apply String.eqb_neq in He.
      split; [|intros H; contradiction].
      destruct (isEmail _); discriminate.
  - destruct (email data =? "") eqn:He.
    + apply String.eqb_eq in He.
      split; [discriminate|]. intros (H & _). contradiction.
    + apply String.eqb_neq in He.
      destruct (isEmail _); split; auto; try discriminate.
      intros (_ & H). discriminate.
  - destruct (existsb (String.eqb (status data)) ELeadStatus_values) eqn:E.
    + apply status_in_enum in E. destruct E as (s & Hs).
      split; [discriminate|]. intros H. now destruct (H s).
    + split; auto. intros _ s Hs.
      assert (E' : existsb (String.eqb (status data)) ELeadStatus_values
                   = true) by (apply status_in_enum; now exists s).
      congruence.
  - intros s. split.
    + unfold ELeadStatus_values. apply in_map. destruct s; simpl; tauto.
    + destruct s; reflexivity.
Qed.

(** ** Submitting the form *)

(** A form the schema refuses is not sent: submitting it changes nothing but
    the field errors, which become the messages of the schema. *)
Theorem invalid_form_not_sent (st : State) :
  hasErrors (schema isEmail (values st)) = true ->
  pending (step isEmail st Submit) = pending st /\
  loading (step isEmail st Submit) = loading st /\
  leads (step isEmail st Submit) = leads st /\
  open (step isEmail st Submit) = open st /\
  error (step isEmail st Submit) = error st /\
  values (step isEmail st Submit) = values st /\
  (open st && negb (loading st) = true ->
   fieldErrors (render (step isEmail st Submit))
   = schema isEmail (values st)).
Proof.
  intros H. simpl. unfold handleSubmit. rewrite H.
  destruct (open st && negb (loading st)); repeat split; auto; discriminate.
Qed.

(** A form the schema accepts, submitted while the modal is open and no
    create is under way, is sent: one POST joins the requests in flight,
    carrying the form values as they are; the field errors are cleared; both
    buttons are disabled, so that submitting again or clicking "Add New" does
    nothing; the modal, the lead sequence and the page error are as before. *)
Theorem valid_form_is_sent (st : State) :
  open st && negb (loading st) = true ->
  hasErrors (schema isEmail (values st)) = false ->
  pending (step isEmail st Submit)
  = (pending st ++ [PostLead (leads st) (values st)])%list /\
  loading (step isEmail st Submit) = true /\
  errors (step isEmail st Submit) = noErrors /\
  values (step isEmail st Submit) = values st /\
  open (step isEmail st Submit) = open st /\
  leads (step isEmail st Submit) = leads st /\
  error (step isEmail st Submit) = error st /\
  submitDisabled (render (step isEmail st Submit)) = true /\
  addNewDisabled (render (step isEmail st Submit)) = true /\
  step isEmail (step isEmail st Submit) Submit = step isEmail st Submit /\
  step isEmail (step isEmail st Submit) ClickAddNew = step isEmail st Submit.
Proof.
  intros Hen Hok.
  assert (Hs : step isEmail st Submit
               = onSubmit (values st) (setErrors noErrors st)).
  { simpl. rewrite Hen. unfold handleSubmit. now rewrite Hok. }
  rewrite Hs. repeat split; auto.
  simpl. now rewrite andb_false_r.
Qed.

Lemma step_postsValid (st : State) (e : Event) :
  postsValid isEmail st -> postsValid isEmail (step isEmail st e).
Proof.
  unfold postsValid. intros H.
  destruct e; simpl.
  - destruct (fetchPending st); exact H.
  - destruct (fetchPending st); exact H.
  - destruct (loading st); [exact H|].
    now rewrite (proj1 (effectOpen_frame (open st) (setOpen true st))).
  - destruct (open st); [|exact H].
    now rewrite (proj1 (effectOpen_frame true (setOpen false st))).
  - destruct (open st); exact H.
  - destruct (open st && negb (loading st)); [|exact H].
    unfold handleSubmit.
    destruct (hasErrors (schema isEmail (values st))) eqn:Hv; [exact H|].
    simpl. apply Forall_app. split; [exact H|].
    constructor; [exact Hv|constructor].
  - destruct (fetching st); [exact H|].
    destruct (nth_error (leads st) row); [|exact H].
    unfold removeLead.
    destruct (clearCurrentInterval_frame st) as (Hc & _).
    destruct (_id i =? ""); simpl; rewrite Hc; [exact H|].
    apply Forall_app. split; [exact H|]. constructor; [exact I|constructor].
  - destruct (nth_error (pending st) k); [|exact H].
    apply (Forall_dropAt _ k) in H.
    match goal with
    | |- Forall _ (pending (effectOpen ?b ?x)) =>
        rewrite (proj1 (effectOpen_frame b x))
    end.
    destruct r, o; simpl; try exact H.
    + unfold onSubmit_then. destruct (truthy (res_error res)); exact H.
    + unfold removeLead_then. destruct (truthy (res_error res)); exact H.
  - destruct (tick_frame st) as (_ & _ & _ & _ & _ & _ & _ & _ & _ & _ & Hp).
    rewrite Hp. exact H.
Qed.

(** Along any run of the page, every POST in flight carries data that the
    schema accepts: nothing reaches the server unvalidated. *)
Theorem posts_in_flight_are_valid (es : list Event) :
  Forall (fun r => match r with
                   | PostLead _ data => hasErrors (schema isEmail data) = false
                   | DeleteLead _ _ => True
                   end)
         (pending (run isEmail mount es)).
Proof.
  change (postsValid isEmail (run isEmail mount es)).
  assert (H : forall st, postsValid isEmail st ->
                         postsValid isEmail (run isEmail st es)).
  { induction es as [|e es' IH]; intros st Hst; simpl; [exact Hst|].
    apply IH. now apply step_postsValid. }
  apply H. unfold postsValid; simpl. constructor.
Qed.

(** ** The fetch of the mount effect *)

Lemma tbody_FetchingRow (st : State) :
  tbody (render st) = FetchingRow <-> fetching st = true.
Proof.
  unfold render; simpl. destruct (fetching st).
  - split; reflexivity.
  - destruct (leads st); split; discriminate.
Qed.

Lemma isDelete_in_flight (st : State) (k : nat) (r : Request) :
  nth_error (pending st) k = Some r -> deletesInFlight st = 0%nat ->
  isDelete r = false /\
  length (filter isDelete (dropAt k (pending st))) = 0%nat.
Proof.
  intros Hk H0.
  pose proof (filter_dropAt isDelete (pending st) k r Hk) as Hc.
  unfold deletesInFlight in H0. rewrite H0 in Hc.
  destruct (isDelete r); split; auto; lia.
Qed.

Lemma step_beforeFetch (st : State) (e : Event) :
  beforeFetch st -> beforeFetch (step isEmail st e).
Proof.
  intros H.
  destruct e; simpl.
  - destruct (fetchPending st) eqn:Hp; [|exact H].
    split; [reflexivity|discriminate].
  - destruct (fetchPending st) eqn:Hp; [|exact H].
    split; [reflexivity|discriminate].
  - destruct (loading st); [exact H|].
    destruct H as (Hf & Hb).
    destruct (effectOpen_frame (open st) (setOpen true st))
      as (Hp & Ht & Hr & _ & Hfp).
    unfold beforeFetch, deletesInFlight. rewrite Hp, Ht, Hr, Hfp.
    split; [|exact Hb].
    unfold effectOpen; simpl. destruct (Bool.eqb (open st) true); exact Hf.
  - destruct (open st) eqn:Ho; [|exact H].
    destruct H as (Hf & Hb).
    destruct (effectOpen_frame true (setOpen false st))
      as (Hp & Ht & Hr & _ & Hfp).
    unfold beforeFetch, deletesInFlight. rewrite Hp, Ht, Hr, Hfp.
    split; [|exact Hb]. exact Hf.
  - destruct (open st); exact H.
  - destruct (open st && negb (loading st)); [|exact H].
    unfold handleSubmit. destruct (hasErrors _); [exact H|].
    destruct H as (Hf & Hb).
    unfold beforeFetch, deletesInFlight, onSubmit; simpl.
    split; [exact Hf|].
    intros Hp. destruct (Hb Hp) as (Hd & Ht & Hr).
    rewrite filter_app, length_app; simpl.
    unfold deletesInFlight in Hd. rewrite Hd. auto.
  - destruct (fetching st) eqn:Hfe; [exact H|].
    destruct (nth_error (leads st) row); [|exact H].
    destruct H as (Hf & Hb).
    destruct (clearCurrentInterval_frame st) as (Hp & Hr & _ & Hfp).
    assert (Hfe' : fetching (clearCurrentInterval st) = fetching st).
    { unfold clearCurrentInterval. destruct (intervalRef st); reflexivity. }
    unfold removeLead.
    destruct (_id i =? ""); unfold beforeFetch; simpl;
      rewrite Hfe', Hfp; (split; [congruence|]);
      intros Habs; congruence.
  - destruct (nth_error (pending st) k) as [r|] eqn:Hk; [|exact H].
    destruct H as (Hf & Hb).
    match goal with
    | |- beforeFetch (effectOpen ?b ?x) =>
        destruct (effectOpen_frame b x) as (Hp & Ht & Hr & _ & Hfp);
        assert (Hfe : fetching (effectOpen b x) = fetching x)
          by (unfold effectOpen; destruct (Bool.eqb b (open x));
              [reflexivity|destruct (open x); reflexivity]);
        unfold beforeFetch, deletesInFlight; rewrite Hp, Ht, Hr, Hfp, Hfe
    end.
    assert (Hsame : forall x,
               x = settle r o (setPending (dropAt k (pending st)) st) ->
               fetching x = fetching st /\ fetchPending x = fetchPending st /\
               pending x = dropAt k (pending st)).
    { intros x Hx. subst x. destruct r, o; simpl;
        unfold onSubmit_finally, onSubmit_then, removeLead_then;
        try destruct (truthy (res_error res)); repeat split. }
    destruct (Hsame _ eq_refl) as (H1 & H2 & H3). rewrite H1, H2, H3.
    split; [exact Hf|].
    intros Hfp'. destruct (Hb Hfp') as (Hd & Hts & Hrf).
    destruct (isDelete_in_flight st k r Hk Hd) as (Hnd & Hz).
    destruct r as [l d|l d]; [|discriminate].
    destruct o as [|res]; simpl;
      unfold onSubmit_finally, onSubmit_then;
      try destruct (truthy (res_error res)); simpl; auto.
  - destruct H as (Hf & Hb).
    destruct (tick_frame st)
      as (_ & Hfe & _ & _ & Hr & _ & _ & _ & _ & Hfp & Hp).
    unfold beforeFetch, deletesInFlight. rewrite Hfe, Hr, Hfp, Hp.
    split; [exact Hf|].
    intros Hfp'. destruct (Hb Hfp') as (Hd & Hts & Hrf).
    repeat split; auto.
    destruct (tick_noNewTimer st) as (Hlen & _). rewrite Hts in Hlen.
    destruct (timers (tick st)); [reflexivity|simpl in Hlen; lia].
Qed.

Lemma run_beforeFetch (es : list Event) :
  forall st, beforeFetch st -> beforeFetch (run isEmail st es).
Proof.
  induction es as [|e es IH]; intros st H; simpl; [exact H|].
  apply IH. now apply step_beforeFetch.
Qed.

Lemma mount_beforeFetch : beforeFetch mount.
Proof. unfold beforeFetch; simpl. repeat split. Qed.

(** Along any run of the page, the loading row is displayed exactly while
    the GET of the mount effect is in flight; once that request has ended it
    is never displayed again. *)
Theorem loading_row_while_fetching (es : list Event) :
  (tbody (render (run isEmail mount es)) = FetchingRow
   <-> fetchPending (run isEmail mount es) = true) /\
  (forall es' : list Event,
      fetchPending (run isEmail mount es) = false ->
      tbody (render (run isEmail mount (es ++ es'))) <> FetchingRow).
Proof.
  split.
  - rewrite tbody_FetchingRow.
    destruct (run_beforeFetch es mount mount_beforeFetch) as (Hf & _).
    now rewrite Hf.
  - intros es' Hp Hrow. apply tbody_FetchingRow in Hrow.
    destruct (run_beforeFetch (es ++ es') mount mount_beforeFetch)
      as (Hf & _).
    rewrite Hf, run_app in Hrow.
    rewrite (run_fetchPending_false isEmail es' _ Hp) in Hrow. discriminate.
Qed.

(** Along any run of the page, as long as the GET of the mount effect is in
    flight nothing can be deleted: no DELETE is in flight, no interval is
    pending or was ever started, and a click on a delete button does
    nothing. *)
Theorem nothing_deleted_before_fetch (es : list Event) :
  fetchPending (run isEmail mount es) = true ->
  deletesInFlight (run isEmail mount es) = 0%nat /\
  timers (run isEmail mount es) = [] /\
  intervalRef (run isEmail mount es) = None /\
  (forall row : nat,
      step isEmail (run isEmail mount es) (ClickRemove row)
      = run isEmail mount es).
Proof.
  intros Hp.
  destruct (run_beforeFetch es mount mount_beforeFetch) as (Hf & Hb).
  destruct (Hb Hp) as (Hd & Ht & Hr).
  repeat split; auto.
  intros row. simpl. now rewrite Hf, Hp.
Qed.

(** When the GET of the mount effect succeeds, the lead sequence becomes the
    response, whatever it was before, and is what the table shows (the
    empty-state row when the response is empty); the page error and the modal
    are not touched.  That request ends once: a later answer is ignored. *)
Theorem fetch_success_replaces (st : State) (data : list ILead) :
  fetchPending st = true ->
  leads (step isEmail st (FetchOk data)) = data /\
  fetching (step isEmail st (FetchOk data)) = false /\
  renderedLeads (render (step isEmail st (FetchOk data))) = data /\
  (tbody (render (step isEmail st (FetchOk data))) = NoLeadsRow
   <-> data = []) /\
  error (step isEmail st (FetchOk data)) = error st /\
  open (step isEmail st (FetchOk data)) = open st /\
  pending (step isEmail st (FetchOk data)) = pending st /\
  (forall data' : list ILead,
      step isEmail (step isEmail st (FetchOk data)) (FetchOk data')
      = step isEmail st (FetchOk data)) /\
  (forall message : string,
      step isEmail (step isEmail st (FetchOk data)) (FetchFail message)
      = step isEmail st (FetchOk data)).
Proof.
  intros Hp.
  assert (Hs : step isEmail st (FetchOk data)
               = fetchLeads_try data (setFetchPending false st)).
  { simpl. now rewrite Hp. }
  rewrite Hs. repeat split; auto.
  - rewrite renderedLeads_render. reflexivity.
  - unfold render; simpl. destruct data; [reflexivity|discriminate].
  - intros H. subst data. reflexivity.
Qed.

(** ** One create at a time *)

Lemma effectOpen_loading (b : bool) (st : State) :
  loading (effectOpen b st) = loading st /\
  values (effectOpen b st) = values st /\
  errors (effectOpen b st) = errors st /\
  nextTimer (effectOpen b st) = nextTimer st /\
  now (effectOpen b st) = now st.
Proof.
  unfold effectOpen. destruct (Bool.eqb b (open st)); [repeat split|].
  destruct (open st); repeat split.
Qed.

Lemma step_onePost (st : State) (e : Event) :
  refusesDelete st e = false -> onePost st -> onePost (step isEmail st e).
Proof.
  intros Hnr H.
  destruct e; simpl.
  - destruct (fetchPending st); exact H.
  - destruct (fetchPending st); exact H.
  - destruct (loading st) eqn:Hl; [exact H|].
    destruct (effectOpen_frame (open st) (setOpen true st)) as (Hp & _).
    destruct (effectOpen_loading (open st) (setOpen true st)) as (Hlo & _).
    unfold onePost, postsInFlight. rewrite Hp, Hlo. exact H.
  - destruct (open st) eqn:Ho; [|exact H].
    destruct (effectOpen_frame true (setOpen false st)) as (Hp & _).
    destruct (effectOpen_loading true (setOpen false st)) as (Hlo & _).
    unfold onePost, postsInFlight. rewrite Hp, Hlo. exact H.
  - destruct (open st); exact H.
  - destruct (open st && negb (loading st)) eqn:Hen; [|exact H].
    unfold handleSubmit. destruct (hasErrors _); [exact H|].
    apply andb_true_iff in Hen. destruct Hen as [_ Hl].
    apply negb_true_iff in Hl.
    destruct H as (Hle & Hload).
    unfold onePost, postsInFlight, onSubmit; simpl.
    rewrite filter_app, length_app; simpl.
    unfold postsInFlight in *.
    assert (length (filter isPost (pending st)) = 0%nat).
    { destruct (length (filter isPost (pending st))) as [|[|n]]; auto.
      - specialize (Hload eq_refl). congruence.
      - lia. }
    split; [lia|reflexivity].
  - destruct (fetching st); [exact H|].
    destruct (nth_error (leads st) row); [|exact H].
    destruct (clearCurrentInterval_frame st) as (Hp & _).
    assert (Hlo : loading (clearCurrentInterval st) = loading st).
    { unfold clearCurrentInterval. destruct (intervalRef st); reflexivity. }
    unfold removeLead.
    destruct (_id i =? ""); unfold onePost, postsInFlight; simpl;
      rewrite Hp, Hlo; [exact H|].
    rewrite filter_app, length_app; simpl. rewrite Nat.add_0_r. exact H.
  - simpl in Hnr.
    destruct (nth_error (pending st) k) as [r|] eqn:Hk; [|exact H].
    pose proof (filter_dropAt isPost (pending st) k r Hk) as Hc.
    destruct H as (Hle & Hload). unfold postsInFlight in *.
    match goal with
    | |- onePost (effectOpen ?b ?x) =>
        destruct (effectOpen_frame b x) as (Hp & _);
        destruct (effectOpen_loading b x) as (Hlo & _);
        unfold onePost, postsInFlight; rewrite Hp, Hlo
    end.
    destruct r as [l d|l d]; cbn [isPost isDelete negb] in Hc.
    + (* a POST ends: the finally callback enables the button again *)
      assert (Hz : length (filter isPost (dropAt k (pending st))) = 0%nat)
        by lia.
      destruct o as [|res]; simpl;
        unfold onSubmit_finally, onSubmit_then;
        try destruct (truthy (res_error res)); simpl;
        rewrite Hz; split; auto; discriminate.
    + rewrite Nat.add_0_r in Hc.
      destruct o as [|res]; simpl in Hnr |- *.
      * rewrite <- Hc. split; assumption.
      * unfold removeLead_then. rewrite Hnr. simpl.
        rewrite <- Hc. split; assumption.
  - destruct (tick_frame st)
      as (_ & _ & _ & Hlo & _ & _ & _ & _ & _ & _ & Hp).
    unfold onePost, postsInFlight. rewrite Hp, Hlo. exact H.
Qed.

Lemma run_onePost (es : list Event) :
  forall st, onePost st -> noDeleteRefused isEmail st es = true ->
             onePost (run isEmail st es).
Proof.
  induction es as [|e es IH]; intros st H Hn; simpl in *; [exact H|].
  apply andb_true_iff in Hn. destruct Hn as [Hn Hrest].
  apply negb_true_iff in Hn.
  apply IH; [|exact Hrest]. now apply step_onePost.
Qed.

(** Along any run of the page in which no delete is refused, at most one
    POST is in flight, and while one is, [loading] is set: the submit button
    and "Add New" are disabled. *)
Theorem one_create_at_a_time (es : list Event) :
  noDeleteRefused isEmail mount es = true ->
  (postsInFlight (run isEmail mount es) <= 1)%nat /\
  (postsInFlight (run isEmail mount es) = 1%nat ->
   loading (run isEmail mount es) = true /\
   submitDisabled (render (run isEmail mount es)) = true /\
   addNewDisabled (render (run isEmail mount es)) = true).
Proof.
  intros Hn.
  assert (H0 : onePost mount).
  { unfold onePost, postsInFlight; simpl. split; [lia|discriminate]. }
  destruct (run_onePost es mount H0 Hn) as (Hle & Hload).
  split; [exact Hle|]. intros H1. specialize (Hload H1).
  repeat split; exact Hload.
Qed.

(** A refused delete sets [loading] to false, although it never set it: if
    a create is under way, the submit button and "Add New" are enabled again
    while its POST is still in flight, and a form the schema accepts can be
    sent a second time. *)
Theorem refused_delete_enables_submit
        (mid : State) (leads0 : list ILead) (id : string) (k : nat)
        (res : Response) :
  nth_error (pending mid) k = Some (DeleteLead leads0 id) ->
  truthy (res_error res) = true ->
  loading (step isEmail mid (Settle k (Replied res))) = false /\
  submitDisabled (render (step isEmail mid (Settle k (Replied res))))
  = false /\
  postsInFlight (step isEmail mid (Settle k (Replied res)))
  = postsInFlight mid /\
  (open mid = true ->
   hasErrors (schema isEmail (values mid)) = false ->
   postsInFlight
     (step isEmail (step isEmail mid (Settle k (Replied res))) Submit)
   = S (postsInFlight mid)).
Proof.
  intros Hk Herr.
  pose proof (filter_dropAt isPost (pending mid) k _ Hk) as Hc.
  cbn [isPost isDelete negb] in Hc. rewrite Nat.add_0_r in Hc.
  assert (Hs : step isEmail mid (Settle k (Replied res))
               = effectOpen (open mid)
                   (removeLead_then leads0 id res
                      (setPending (dropAt k (pending mid)) mid))).
  { unfold step. rewrite Hk. reflexivity. }
  assert (Hst : loading (step isEmail mid (Settle k (Replied res))) = false
                /\ pending (step isEmail mid (Settle k (Replied res)))
                   = dropAt k (pending mid)
                /\ open (step isEmail mid (Settle k (Replied res)))
                   = open mid
                /\ values (step isEmail mid (Settle k (Replied res)))
                   = values mid).
  { rewrite Hs. unfold removeLead_then. rewrite Herr.
    destruct mid as [? ? [|] ? ? ? ? ? ? ? ? ? ?]; repeat split. }
  destruct Hst as (Hl & Hp & Ho & Hv).
  split; [exact Hl|]. split; [exact Hl|].
  split; [unfold postsInFlight; now rewrite Hp, <- Hc|].
  intros Hopen Hok.
  remember (step isEmail mid (Settle k (Replied res))) as st eqn:E.
  simpl. rewrite Ho, Hopen, Hl. simpl.
  unfold handleSubmit. rewrite Hv, Hok.
  unfold postsInFlight, onSubmit; simpl.
  rewrite Hp, filter_app, length_app, <- Hc. simpl. lia.
Qed.

(** ** What a request that fails in transport does *)

(** When the promise of a POST or DELETE rejects, the request leaves the
    requests in flight and nothing is displayed: the page error, what is on
    screen of it, the modal, the lead sequence, the form and the intervals
    are as before.  For a POST the submit button is enabled again; for a
    DELETE [loading] is not touched. *)
Theorem rejected_request_is_silent (st : State) (k : nat) (r : Request) :
  nth_error (pending st) k = Some r ->
  pending (step isEmail st (Settle k Rejected)) = dropAt k (pending st) /\
  error (step isEmail st (Settle k Rejected)) = error st /\
  visibleError (render (step isEmail st (Settle k Rejected)))
  = visibleError (render st) /\
  open (step isEmail st (Settle k Rejected)) = open st /\
  leads (step isEmail st (Settle k Rejected)) = leads st /\
  values (step isEmail st (Settle k Rejected)) = values st /\
  timers (step isEmail st (Settle k Rejected)) = timers st /\
  intervalRef (step isEmail st (Settle k Rejected)) = intervalRef st /\
  loading (step isEmail st (Settle k Rejected))
  = (if isDelete r then loading st else false).
Proof.
  intros Hk. unfold step. rewrite Hk.
  destruct r; simpl;
    destruct st as [? ? [|] ? ? ? ? ? ? ? ? ? ?]; repeat split; reflexivity.
Qed.

(** ** What changes the form and the modal *)

(** The form values are only changed by typing and by a create that
    succeeds (which resets the form): every other event keeps them.  In
    particular closing the modal and opening it again shows the form as it
    was left. *)
Theorem form_values_kept (st : State) (e : Event) :
  isEdit e = false -> createsLead st e = false ->
  values (step isEmail st e) = values st /\
  values (step isEmail (step isEmail st CloseModal) ClickAddNew) = values st.
Proof.
  intros He Hc.
  assert (Hclose : forall s, values (step isEmail s CloseModal) = values s).
  { intros s. simpl. destruct (open s); [|reflexivity].
    now rewrite (proj1 (proj2 (effectOpen_loading true (setOpen false s)))). }
  assert (Hopen : forall s, values (step isEmail s ClickAddNew) = values s).
  { intros s. simpl. destruct (loading s); [reflexivity|].
    now rewrite (proj1 (proj2 (effectOpen_loading (open s)
                                                  (setOpen true s)))). }
  split; [|now rewrite Hopen, Hclose].
  destruct e; try discriminate; try apply Hclose; try apply Hopen.
  - simpl. destruct (fetchPending st); reflexivity.
  - simpl. destruct (fetchPending st); reflexivity.
  - simpl. destruct (open st && negb (loading st)); [|reflexivity].
    unfold handleSubmit. destruct (hasErrors _); reflexivity.
  - simpl. destruct (fetching st); [reflexivity|].
    destruct (nth_error (leads st) row); [|reflexivity].
    unfold removeLead, clearCurrentInterval.
    destruct (_id i =? ""), (intervalRef st); reflexivity.
  - simpl in Hc |- *.
    destruct (nth_error (pending st) k) as [r|]; [|reflexivity].
    match goal with
    | |- values (effectOpen ?b ?x) = _ =>
        rewrite (proj1 (proj2 (effectOpen_loading b x)))
    end.
    destruct r, o; simpl; try reflexivity.
    + apply negb_false_iff in Hc. unfold onSubmit_then. now rewrite Hc.
    + unfold removeLead_then, startErrorInterval.
      destruct (truthy (res_error res)); reflexivity.
  - now destruct (tick_frame st) as (_ & _ & _ & _ & _ & Hv & _).
Qed.

(** The modal opens only through "Add New" while no create is under way,
    and closes only through its close controls or a create that succeeds: a
    refused create, a failed request, a delete, the fetch and the passing of
    time never open or close it. *)
Theorem modal_open_transitions (st : State) (e : Event) :
  Bool.eqb (open (step isEmail st e)) (open st) = false ->
  (e = ClickAddNew /\ open st = false /\ loading st = false /\
   open (step isEmail st e) = true) \/
  (e = CloseModal /\ open st = true /\ open (step isEmail st e) = false) \/
  (createsLead st e = true /\ open st = true /\
   open (step isEmail st e) = false).
Proof.
  intros Hch.
  destruct e;
    try (exfalso;
         destruct st as [? ? [|] ? ? ? ? ? ? ? ? ? ?];
         revert Hch; unfold_handlers; simpl; split_cases; discriminate).
  - left. destruct st as [? ? [|] [|] ? ? ? ? ? ? ? ? ?];
      simpl in *; try discriminate. repeat split.
  - right; left. destruct st as [? ? [|] ? ? ? ? ? ? ? ? ? ?];
      simpl in *; try discriminate. repeat split.
  - right; right. unfold createsLead.
    destruct st as [? ? [|] ? ? ? ? ? ? ? ? ? ?];
      revert Hch; unfold_handlers; simpl; split_cases;
      intros; try discriminate; repeat split.
  - exfalso. change (step isEmail st Tick) with (tick st) in Hch.
    destruct (tick_frame st) as (_ & _ & Ho & _).
    rewrite Ho, Bool.eqb_reflx in Hch. discriminate.
Qed.

(** ** The interval cancels itself, unless it was orphaned *)

Lemma ticks_keep_no_timer (n : nat) :
  forall st, timers st = [] -> timers (run isEmail st (repeat Tick n)) = [].
Proof.
  induction n as [|n IH]; intros st H; simpl; [exact H|].
  apply IH. destruct (tick_noNewTimer st) as (Hl & _). rewrite H in Hl.
  destruct (timers (tick st)); [reflexivity|simpl in Hl; lia].
Qed.

(** Along any run of the page in which no delete button is clicked while a
    delete is in flight, the interval runs once: the millisecond it comes
    due it clears the page error and cancels itself, and no interval is
    pending afterwards. *)
Theorem interval_runs_once (es : list Event) (t : nat) (due : N) :
  removesApart isEmail mount es = true ->
  In (t, due) (timers (run isEmail mount es)) ->
  (due <=? now (run isEmail mount es) + 1)%N = true ->
  timers (step isEmail (run isEmail mount es) Tick) = [] /\
  error (step isEmail (run isEmail mount es) Tick) = None /\
  (forall n : nat,
      timers (run isEmail (step isEmail (run isEmail mount es) Tick)
                  (repeat Tick n)) = []).
Proof.
  intros Hap Hin Hdue.
  destruct (run_oneInterval isEmail es mount mount_oneInterval Hap)
    as (_ & _ & Hlen & Href).
  remember (run isEmail mount es) as st eqn:Hst. clear Hst Hap.
  assert (Hts : timers st = [(t, due)]).
  { destruct (timers st) as [|x [|y ts]]; simpl in *; try lia; try tauto.
    destruct Hin as [Hin|[]]. now subst x. }
  specialize (Href (t, due) Hin). simpl in Href.
  assert (Hnone : timers (step isEmail st Tick) = []).
  { simpl. unfold tick.
    destruct st as [? ? ? ? ? ? ? ? ? ? ? ? ?]; simpl in *.
    subst. simpl. rewrite Hdue. unfold isPending, timerIds; simpl.
    rewrite Nat.eqb_refl; simpl.
    unfold reschedule, intervalCallback, clearCurrentInterval, clearInterval;
      simpl. now rewrite Nat.eqb_refl. }
  split; [exact Hnone|]. split.
  - simpl. unfold tick. apply (fire_due_clears _ _ t due).
    + simpl. exact Hin.
    + simpl. now apply N.leb_le.
    + now apply (In_isPending t due).
  - intros n. apply ticks_keep_no_timer. exact Hnone.
Qed.

Lemma isPending_clearInterval (t r : nat) (st : State) :
  Nat.eqb r t = false ->
  isPending t (clearInterval r st) = isPending t st.
Proof.
  intros Hr. unfold isPending, timerIds, clearInterval; simpl.
  induction (timers st) as [|x ts IH]; simpl; [reflexivity|].
  destruct (Nat.eqb (fst x) r) eqn:Hx; simpl.
  - rewrite IH. apply Nat.eqb_eq in Hx. rewrite <- Hx in Hr.
    rewrite Nat.eqb_sym in Hr. now rewrite Hr.
  - now rewrite IH.
Qed.

Lemma isPending_reschedule (t u : nat) (st : State) :
  isPending t (reschedule u st) = isPending t st.
Proof.
  unfold isPending, timerIds, reschedule; simpl.
  rewrite map_map. f_equal. apply map_ext.
  intros x. destruct (Nat.eqb (fst x) u); reflexivity.
Qed.

Lemma isPending_callback (t : nat) (st : State) :
  refIs t st = false ->
  isPending t (intervalCallback st) = isPending t st.
Proof.
  unfold refIs, intervalCallback, clearCurrentInterval; simpl.
  destruct (intervalRef st) as [r|]; intros Hr; [|reflexivity].
  now rewrite (isPending_clearInterval t r (setError None st) Hr).
Qed.

Lemma fire_orphan (t : nat) (snapshot : list Timer) :
  forall st, isPending t st = true -> refIs t st = false ->
             isPending t (fire snapshot st) = true.
Proof.
  induction snapshot as [|[u due] rest IH]; intros st Hp Hr; simpl;
    [exact Hp|].
  destruct ((due <=? now st)%N && isPending u st); [|now apply IH].
  apply IH.
  - now rewrite isPending_reschedule, isPending_callback.
  - destruct (intervalCallback_frame st) as (_ & _ & _ & _ & Hi & _).
    destruct (reschedule_frame u (intervalCallback st))
      as (_ & _ & _ & _ & Hi' & _).
    unfold refIs in *. now rewrite <- Hi', <- Hi.
Qed.

Lemma step_ref (st : State) (e : Event) :
  isClickRemove e = false -> e <> Tick ->
  (intervalRef (step isEmail st e) = intervalRef st /\
   nextTimer (step isEmail st e) = nextTimer st) \/
  (intervalRef (step isEmail st e) = Some (nextTimer st) /\
   nextTimer (step isEmail st e) = S (nextTimer st)).
Proof.
  intros Hr Ht.
  destruct e; try discriminate; try congruence;
    destruct st as [? ? ? ? ? ? ? ? ? ? ? ? ?];
    unfold_handlers; simpl; split_cases; auto.
Qed.

Lemma step_orphan (t : nat) (st : State) (e : Event) :
  orphan t st -> orphan t (step isEmail st e).
Proof.
  intros (Hp & Hr & Hlt).
  destruct (elapsed_cons e []) as [(He & _)|(He & _)].
  { subst e. change (step isEmail st Tick) with (tick st).
    destruct (tick_frame st)
      as (_ & _ & _ & _ & Hi & _ & _ & _ & Hn & _).
    unfold orphan, refIs. rewrite Hi, Hn. fold (refIs t st).
    split; [|split; assumption].
    unfold tick. apply fire_orphan; [exact Hp|exact Hr]. }
  destruct (isClickRemove e) eqn:Hrem.
  { destruct e; try discriminate. simpl.
    destruct (fetching st); [now repeat split|].
    destruct (nth_error (leads st) row); [|now repeat split].
    assert (H : orphan t (clearCurrentInterval st)).
    { unfold orphan, refIs, clearCurrentInterval in *.
      destruct (intervalRef st) as [r|] eqn:Hi;
        [|rewrite Hi; now repeat split].
      rewrite (isPending_clearInterval t r st Hr). simpl. rewrite Hi.
      now repeat split. }
    unfold removeLead. destruct (_id i =? ""); exact H. }
  destruct (step_timers isEmail st e Hrem He) as (_ & Htm).
  assert (Hp' : isPending t (step isEmail st e) = true).
  { unfold isPending, timerIds in *.
    destruct Htm as [Htm|Htm]; rewrite Htm; [exact Hp|].
    rewrite map_app, existsb_app.
    apply orb_true_iff. left. exact Hp. }
  split; [exact Hp'|].
  unfold refIs in *.
  destruct (step_ref st e Hrem He) as [(Hi & Hn)|(Hi & Hn)];
    rewrite Hi, Hn.
  - split; assumption.
  - split; [apply Nat.eqb_neq|]; lia.
Qed.

Lemma run_orphan (t : nat) (es : list Event) :
  forall st, orphan t st -> orphan t (run isEmail st es).
Proof.
  induction es as [|e es IH]; intros st Ho; simpl; [exact Ho|].
  apply IH. now apply step_orphan.
Qed.

(** An interval that is pending while the ref holds another id is never
    cancelled: whatever happens afterwards, it stays pending, and the ref
    never points to it again. *)
Theorem orphan_interval_stays (st : State) (t : nat) (es : list Event) :
  isPending t st = true -> refIs t st = false ->
  (t <? nextTimer st)%nat = true ->
  isPending t (run isEmail st es) = true /\
  refIs t (run isEmail st es) = false.
Proof.
  intros Hp Hr Hlt. apply Nat.ltb_lt in Hlt.
  assert (H : orphan t (run isEmail st es)).
  { apply run_orphan. repeat split; assumption. }
  destruct H as (H1 & H2 & _). now split.
Qed.

Lemma step_timers_next (st : State) (e : Event) :
  isClickRemove e = false -> e <> Tick ->
  (timers (step isEmail st e) = timers st /\
   nextTimer (step isEmail st e) = nextTimer st) \/
  (timers (step isEmail st e)
   = (timers st ++ [(nextTimer st, (now st + errorDuration)%N)])%list /\
   nextTimer (step isEmail st e) = S (nextTimer st)).
Proof.
  intros Hr Ht.
  destruct e; try discriminate; try congruence;
    destruct st as [? ? ? ? ? ? ? ? ? ? ? ? ?];
    unfold_handlers; simpl; split_cases; auto.
Qed.

Lemma step_timersFresh (st : State) (e : Event) :
  timersFresh st -> timersFresh (step isEmail st e).
Proof.
  intros H.
  destruct (elapsed_cons e []) as [(He & _)|(He & _)].
  { subst e. change (step isEmail st Tick) with (tick st).
    destruct (tick_frame st)
      as (_ & _ & _ & _ & _ & _ & _ & _ & Hn & _).
    destruct (tick_noNewTimer st) as (_ & Hin).
    unfold timersFresh. rewrite Hn. intros t Ht.
    unfold timerIds in Ht. apply in_map_iff in Ht.
    destruct Ht as (x & Hx & Hxin). subst t. apply H. now apply Hin. }
  destruct (isClickRemove e) eqn:Hrem.
  { destruct e; try discriminate. simpl.
    destruct (fetching st); [exact H|].
    destruct (nth_error (leads st) row); [|exact H].
    assert (Hc : timersFresh (clearCurrentInterval st)).
    { unfold clearCurrentInterval.
      destruct (intervalRef st) as [r|]; [|exact H].
      destruct (clearInterval_noNewTimer r st) as (_ & Hin).
      unfold timersFresh. intros t Ht.
      unfold timerIds in Ht. apply in_map_iff in Ht.
      destruct Ht as (x & Hx & Hxin). subst t.
      apply (H (fst x)). now apply Hin. }
    unfold removeLead. destruct (_id i =? ""); exact Hc. }
  unfold timersFresh, timerIds in *.
  destruct (step_timers_next st e Hrem He) as [(Htm & Hn)|(Htm & Hn)];
    rewrite Htm, Hn; [exact H|].
  intros t Ht. rewrite map_app in Ht. apply in_app_or in Ht.
  destruct Ht as [Ht|[Ht|[]]].
  - specialize (H t Ht). lia.
  - subst t. simpl. lia.
Qed.

Lemma run_timersFresh (es : list Event) :
  forall st, timersFresh st -> timersFresh (run isEmail st es).
Proof.
  induction es as [|e es IH]; intros st H; simpl; [exact H|].
  apply IH. now apply step_timersFresh.
Qed.

(** Along any run of the page: if a delete is refused while an interval is
    pending, that interval is orphaned.  The ref now holds the new interval,
    so nothing cancels the old one any more: it stays pending whatever
    happens afterwards, and goes on firing every 4 seconds. *)
Theorem refused_delete_orphans_interval
        (es : list Event) (t k : nat) (leads0 : list ILead) (id : string)
        (res : Response) (es' : list Event) :
  isPending t (run isEmail mount es) = true ->
  nth_error (pending (run isEmail mount es)) k
  = Some (DeleteLead leads0 id) ->
  truthy (res_error res) = true ->
  isPending t
    (run isEmail (step isEmail (run isEmail mount es)
                       (Settle k (Replied res))) es') = true /\
  refIs t
    (run isEmail (step isEmail (run isEmail mount es)
                       (Settle k (Replied res))) es') = false.
Proof.
  intros Hp Hk Herr.
  assert (Hfresh : timersFresh (run isEmail mount es)).
  { apply run_timersFresh. intros x []. }
  assert (Hlt : (t < nextTimer (run isEmail mount es))%nat).
  { apply Hfresh. unfold isPending in Hp. apply existsb_exists in Hp.
    destruct Hp as (x & Hx & Hxt). apply Nat.eqb_eq in Hxt. now subst x. }
  destruct (delete_refused_state isEmail _ leads0 id k res Hk Herr)
    as (_ & _ & _ & _ & Href & Htm).
  assert (Hn : nextTimer (step isEmail (run isEmail mount es)
                               (Settle k (Replied res)))
               = S (nextTimer (run isEmail mount es))).
  { unfold step. rewrite Hk. unfold settle, removeLead_then. rewrite Herr.
    destruct (run isEmail mount es) as [? ? [|] ? ? ? ? ? ? ? ? ? ?];
      reflexivity. }
  assert (H : orphan t
                (run isEmail (step isEmail (run isEmail mount es)
                                   (Settle k (Replied res))) es')).
  { apply run_orphan. split; [|split].
    - unfold isPending, timerIds in *. rewrite Htm, map_app, existsb_app.
      apply orb_true_iff. left. exact Hp.
    - unfold refIs. rewrite Href. apply Nat.eqb_neq. lia.
    - rewrite Hn. lia. }
  destruct H as (H1 & H2 & _). now split.
Qed.

(** ** Deleting an id that is there several times, or not at all *)

(** When a delete succeeds, the lead sequence loses exactly as many records
    as the sequence held by the handler has with that id; if it has none the
    sequence becomes the held one unchanged; and no record with that id is
    left for a second delete of the same id to remove. *)
Theorem remove_success_count
        (mid : State) (leads0 : list ILead) (id : string) (k : nat)
        (res : Response) :
  nth_error (pending mid) k = Some (DeleteLead leads0 id) ->
  truthy (res_error res) = false ->
  Nat.add (length (leads (step isEmail mid (Settle k (Replied res)))))
          (length (filter (fun lead => _id lead =? id) leads0))
  = length leads0 /\
  (existsb (fun lead => _id lead =? id) leads0 = false ->
   leads (step isEmail mid (Settle k (Replied res))) = leads0) /\
  filter (fun lead => negb (_id lead =? id))
         (leads (step isEmail mid (Settle k (Replied res))))
  = leads (step isEmail mid (Settle k (Replied res))).
Proof.
  intros Hk Herr.
  assert (Hl : leads (step isEmail mid (Settle k (Replied res)))
               = filter (fun lead => negb (_id lead =? id)) leads0).
  { unfold step. rewrite Hk. unfold settle, removeLead_then. rewrite Herr.
    destruct mid as [? ? [|] ? ? ? ? ? ? ? ? ? ?]; reflexivity. }
  rewrite Hl. split; [|split].
  - rewrite Nat.add_comm. apply filter_length.
  - intros Hnone. clear Hl Hk.
    induction leads0 as [|a l IH]; simpl in *; [reflexivity|].
    apply orb_false_iff in Hnone. destruct Hnone as [Ha Hrest].
    rewrite Ha. simpl. f_equal. now apply IH.
  - clear Hl Hk. induction leads0 as [|a l IH]; simpl; [reflexivity|].
    destruct (_id a =? id) eqn:Ha; simpl; [exact IH|].
    rewrite Ha. simpl. now f_equal.
Qed.

End MoreProperties.

(** ** The [Modal] component *)

Lemma dispatch_stopped {S : Type} (inner outer : list (Handler S)) (s : S) :
  dispatch (inner ++ Modal_content :: outer)%list s
  = dispatch (inner ++ [Modal_content])%list s.
Proof.
  revert s. induction inner as [|h inner IH]; intros s; simpl.
  - reflexivity.
  - destruct (stops h); [reflexivity|apply IH].
Qed.

(** A click inside the content of the modal never reaches the backdrop:
    whatever handlers the children have, the result does not depend on
    [onClose], and a click on a child without handler changes nothing.  A
    click on the backdrop itself calls [onClose], once.  In [Home], the close
    button of the dialog sets [open] to false and the click goes no further.
    The children are rendered whether the modal is open or not. *)
Theorem Modal_click_inside_never_closes
        (S : Type) (onClose : S -> S) (inner : list (Handler S)) (s : S) :
  Modal_clickInside onClose inner s
  = dispatch (inner ++ [Modal_content])%list s /\
  Modal_clickInside onClose [] s = s /\
  Modal_clickBackdrop onClose s = onClose s /\
  (forall (onClose' : State -> State) (st : State),
      Modal_clickInside onClose' [closeButton] st = setOpen false st) /\
  (forall (C : Type) (isOpen : bool) (content : C),
      children (Modal isOpen content) = content).
Proof.
  split; [apply dispatch_stopped|].
  repeat split.
Qed.

(** * Further examples *)

(** A name of 21 characters: the form shows the length message and nothing
    is sent. *)
Lemma invalid_form_not_sent_witness :
  hasErrors (schema coarseEmail (values nameTooLong)) = true /\
  pending (step coarseEmail nameTooLong Submit) = [] /\
  err_name (fieldErrors (render (step coarseEmail nameTooLong Submit)))
  = Some "Name cannot exceed 20 characters".
Proof.
  split; [reflexivity|].
  destruct (invalid_form_not_sent coarseEmail nameTooLong eq_refl)
    as (Hp & _ & _ & _ & _ & _ & He).
  split; [exact Hp|]. now rewrite (He eq_refl).
Defined.

(** Ada's form is sent with the two fetched leads held by the handler. *)
Lemma valid_form_is_sent_witness :
  open filledIn && negb (loading filledIn) = true /\
  hasErrors (schema coarseEmail (values filledIn)) = false /\
  pending (step coarseEmail filledIn Submit)
  = [PostLead [ada; bob] adaInputs] /\
  loading (step coarseEmail filledIn Submit) = true.
Proof.
  split; [reflexivity|]. split; [reflexivity|].
  destruct (valid_form_is_sent coarseEmail filledIn eq_refl eq_refl)
    as (Hp & Hl & _).
  split; [exact Hp|exact Hl].
Defined.

(** While the list is being fetched the form can be sent, but nothing can be
    deleted. *)
Lemma nothing_deleted_before_fetch_witness :
  fetchPending (run coarseEmail mount submitWhileFetching) = true /\
  pending (run coarseEmail mount submitWhileFetching)
  = [PostLead [] adaInputs] /\
  deletesInFlight (run coarseEmail mount submitWhileFetching) = 0%nat /\
  timers (run coarseEmail mount submitWhileFetching) = [].
Proof.
  split; [reflexivity|]. split; [reflexivity|].
  destruct (nothing_deleted_before_fetch coarseEmail submitWhileFetching
              eq_refl) as (Hd & Ht & _).
  split; [exact Hd|exact Ht].
Defined.

(** The list [ada; bob] arrives. *)
Lemma fetch_success_replaces_witness :
  fetchPending mount = true /\
  leads (step coarseEmail mount (FetchOk [ada; bob])) = [ada; bob] /\
  renderedLeads (render (step coarseEmail mount (FetchOk [ada; bob])))
  = [ada; bob].
Proof.
  split; [reflexivity|].
  destruct (fetch_success_replaces coarseEmail mount [ada; bob] eq_refl)
    as (Hl & _ & Hr & _).
  split; [exact Hl|exact Hr].
Defined.

(** One POST is in flight and the buttons are disabled. *)
Lemma one_create_at_a_time_witness :
  noDeleteRefused coarseEmail mount submitRun = true /\
  postsInFlight (run coarseEmail mount submitRun) = 1%nat /\
  loading (run coarseEmail mount submitRun) = true.
Proof.
  split; [reflexivity|]. split; [reflexivity|].
  destruct (one_create_at_a_time coarseEmail submitRun eq_refl)
    as (_ & Hl).
  destruct (Hl eq_refl) as (H & _). exact H.
Defined.

(** The POST of Ada's form fails in transport: the button is enabled again
    and no message appears. *)
Lemma rejected_request_is_silent_witness :
  nth_error (pending submitted) 0 = Some (PostLead [ada; bob] adaInputs) /\
  visibleError (render (step coarseEmail submitted (Settle 0 Rejected)))
  = None /\
  open (step coarseEmail submitted (Settle 0 Rejected)) = true /\
  loading (step coarseEmail submitted (Settle 0 Rejected)) = false.
Proof.
  split; [reflexivity|].
  destruct (rejected_request_is_silent coarseEmail submitted 0%nat
              (PostLead [ada; bob] adaInputs) eq_refl)
    as (_ & _ & Hv & Ho & _ & _ & _ & _ & Hl).
  split; [exact Hv|]. split; [exact Ho|exact Hl].
Defined.

(** Closing the modal keeps what was typed. *)
Lemma form_values_kept_witness :
  isEdit CloseModal = false /\
  createsLead filledIn CloseModal = false /\
  values (step coarseEmail filledIn CloseModal) = adaInputs.
Proof.
  split; [reflexivity|]. split; [reflexivity|].
  destruct (form_values_kept coarseEmail filledIn CloseModal eq_refl eq_refl)
    as (Hv & _).
  exact Hv.
Defined.

(** The close button closes the modal. *)
Lemma modal_open_transitions_witness :
  Bool.eqb (open (step coarseEmail createRefused CloseModal))
           (open createRefused) = false /\
  open createRefused = true /\
  open (step coarseEmail createRefused CloseModal) = false.
Proof.
  split; [reflexivity|].
  destruct (modal_open_transitions coarseEmail createRefused CloseModal
              eq_refl) as [(H & _)|[(_ & Ho & Hc)|(H & _)]];
    try discriminate.
  split; [exact Ho|exact Hc].
Defined.

(** The interval of a refused delete, the millisecond it comes due. *)
Lemma interval_runs_once_witness :
  removesApart coarseEmail mount untilDue = true /\
  In (1%nat, 4000%N) (timers (run coarseEmail mount untilDue)) /\
  (4000 <=? now (run coarseEmail mount untilDue) + 1)%N = true /\
  timers (step coarseEmail (run coarseEmail mount untilDue) Tick) = [] /\
  error (step coarseEmail (run coarseEmail mount untilDue) Tick) = None.
Proof.
  split; [vm_compute; reflexivity|].
  split; [vm_compute; left; reflexivity|].
  split; [vm_compute; reflexivity|].
  destruct (interval_runs_once coarseEmail untilDue 1%nat 4000%N
              ltac:(vm_compute; reflexivity)
              ltac:(vm_compute; left; reflexivity)
              ltac:(vm_compute; reflexivity))
    as (Ht & He & _).
  split; [exact Ht|exact He].
Defined.

(** Two refused deletes that overlapped: the first interval is still pending
    after 4.5 seconds and a further click on a delete button. *)
Lemma orphan_interval_stays_witness :
  isPending 1 bothRefused = true /\
  refIs 1 bothRefused = false /\
  (1 <? nextTimer bothRefused)%nat = true /\
  isPending 1 (run coarseEmail bothRefused
                   (repeat Tick 4500 ++ [ClickRemove 0])%list) = true.
Proof.
  split; [reflexivity|]. split; [reflexivity|]. split; [reflexivity|].
  destruct (orphan_interval_stays coarseEmail bothRefused 1%nat
              (repeat Tick 4500 ++ [ClickRemove 0])%list
              eq_refl eq_refl eq_refl) as (Hp & _).
  exact Hp.
Defined.

(** The second refusal orphans the interval of the first. *)
Lemma refused_delete_orphans_interval_witness :
  isPending 1 (run coarseEmail mount firstRefused) = true /\
  nth_error (pending (run coarseEmail mount firstRefused)) 0
  = Some (DeleteLead [ada; bob] "2") /\
  truthy (res_error leadNotFound) = true /\
  isPending 1
    (run coarseEmail
         (step coarseEmail (run coarseEmail mount firstRefused)
               (Settle 0 (Replied leadNotFound)))
         (repeat Tick 4000)) = true.
Proof.
  split; [reflexivity|]. split; [reflexivity|]. split; [reflexivity|].
  destruct (refused_delete_orphans_interval coarseEmail firstRefused
              1%nat 0%nat [ada; bob] "2" leadNotFound (repeat Tick 4000)
              eq_refl eq_refl eq_refl) as (Hp & _).
  exact Hp.
Defined.

(** Deleting [ada] from [ada; bob] removes one record. *)
Lemma remove_success_count_witness :
  nth_error (pending deleting) 0 = Some (DeleteLead [ada; bob] "1") /\
  truthy (res_error emptyBody) = false /\
  Nat.add
    (length (leads (step coarseEmail deleting (Settle 0 (Replied emptyBody)))))
    1 = 2%nat.
Proof.
  split; [reflexivity|]. split; [reflexivity|].
  destruct (remove_success_count coarseEmail deleting [ada; bob] "1" 0%nat
              emptyBody eq_refl eq_refl) as (Hc & _).
  exact Hc.
Defined.

(** A delete is refused while Ada's form is being sent: the form can be sent
    again, and two POSTs are in flight. *)
Lemma refused_delete_enables_submit_witness :
  nth_error (pending deleteAndCreate) 0 = Some (DeleteLead [ada; bob] "1") /\
  truthy (res_error leadNotFound) = true /\
  loading deleteAndCreate = true /\
  postsInFlight deleteAndCreate = 1%nat /\
  postsInFlight
    (run coarseEmail deleteAndCreate
         [Settle 0 (Replied leadNotFound); Submit]) = 2%nat.
Proof.
  split; [reflexivity|]. split; [reflexivity|].
  split; [reflexivity|]. split; [reflexivity|].
  destruct (refused_delete_enables_submit coarseEmail deleteAndCreate
              [ada; bob] "1" 0%nat leadNotFound eq_refl eq_refl)
    as (_ & _ & _ & H).
  exact (H eq_refl eq_refl).
Defined.

(** * Runs with overlapping requests *)

(** C1 on runs in which the create overlaps another request.  The handler of
    the create holds the list of the render in which the form was submitted.
    First run: a delete of [ada] and the create are in flight together, both
    holding [ada; bob]; the delete is answered first and the page shows
    [bob]; the answer to the create then sets the list to the held one plus
    the new record: the displayed sequence goes from [bob] to
    [ada; bob; created], two entries longer, and [ada] is back.  Second run:
    the form is submitted while the GET of the mount effect is in flight (the
    handler holds the empty list), the GET answers [ada; bob], and the answer
    to the create replaces that by [created] alone. *)
Lemma overlapping_create_overwrites_leads :
  res_error created = None /\
  leads (run coarseEmail deleteAndCreate [Settle 0 (Replied emptyBody)])
  = [bob] /\
  nth_error
    (pending (run coarseEmail deleteAndCreate [Settle 0 (Replied emptyBody)]))
    0 = Some (PostLead [ada; bob] adaInputs) /\
  leads (run coarseEmail deleteAndCreate
             [Settle 0 (Replied emptyBody); Settle 0 (Replied created)])
  = [ada; bob; res_body created] /\
  leads (run coarseEmail mount (submitWhileFetching ++ [FetchOk [ada; bob]]))
  = [ada; bob] /\
  leads (run coarseEmail mount
             (submitWhileFetching
                ++ [FetchOk [ada; bob]; Settle 0 (Replied created)]))
  = [res_body created].
Proof. repeat split; reflexivity. Qed.

(** C3 on a run in which the delete overlaps a create.  A delete of [ada]
    and a create are in flight together, both handlers holding [ada; bob];
    the create is answered first and the page shows [ada; bob; created]; the
    answer to the delete then filters the held list, not the displayed one:
    the sequence becomes [bob], and the record just created, whose id is not
    the deleted one, is gone with [ada]. *)
Lemma overlapping_delete_drops_other_lead :
  res_error emptyBody = None /\
  leads (run coarseEmail deleteAndCreate [Settle 1 (Replied created)])
  = [ada; bob; res_body created] /\
  nth_error
    (pending (run coarseEmail deleteAndCreate [Settle 1 (Replied created)]))
    0 = Some (DeleteLead [ada; bob] "1") /\
  (_id (res_body created) =? "1") = false /\
  leads (run coarseEmail deleteAndCreate
             [Settle 1 (Replied created); Settle 0 (Replied emptyBody)])
  = [bob] /\
  renderedLeads
    (render (run coarseEmail deleteAndCreate
                 [Settle 1 (Replied created); Settle 0 (Replied emptyBody)]))
  = [bob].
Proof. repeat split; reflexivity. Qed.

(** C10 fails as stated.  An interval orphaned by two overlapping refusals is
    pending (see [orphaned]).  A third delete is refused at 5000 ms: its
    interval, number 3, is held by the ref and due at 9000 ms.  No delete
    button is clicked afterwards.  At 8000 ms the orphan fires, and its
    callback cancels the interval the ref holds: interval 3 is cancelled by
    a callback, not by a call of remove.  A create is then refused, and at
    9000 ms, 4 seconds after the third refusal, its message is still
    displayed: the interval of the delete never fired. *)
Lemma orphan_callback_cancels_interval_counterexample :
  timers thirdRefused = [(1%nat, 8000%N); (3%nat, 9000%N)] /\
  intervalRef thirdRefused = Some 3%nat /\
  now thirdRefused = 5000%N /\
  existsb isClickRemove createRefusedLate = false /\
  timers (run coarseEmail thirdRefused untilOrphanFires)
  = [(1%nat, 12000%N)] /\
  isPending 3 (run coarseEmail thirdRefused untilOrphanFires) = false /\
  now (run coarseEmail thirdRefused createRefusedLate) = 9000%N /\
  error (run coarseEmail thirdRefused createRefusedLate)
  = Some "Email already exists" /\
  visibleError (render (run coarseEmail thirdRefused createRefusedLate))
  = Some "Email already exists".
Proof. repeat split; vm_compute; reflexivity. Qed.
